(** * job-screener: the fetch / score / notify pass of [main.py]

    A shallow embedding of [main.py], without its scheduler.  A Python
    [str] is the Rocq string of the bytes of its UTF-8 encoding.  The
    classes [\s] and [\d] of [re], [int], [str.strip] and the slice
    [[:1000]] work on whole characters, with the white space and the
    decimal digits of Unicode 13.0 (Python 3.10).  The seen set is a
    [gset string].  Everything the program does to the outside (the
    cache file, the completion service, the webhook, the three job
    feeds, the log) goes through a small monad that threads the world,
    may raise a Python exception and records the calls made. *)

From Stdlib Require Import ZArith Ascii String.
From stdpp Require Import base decidable option list strings pretty gmap.

Local Open Scope Z_scope.

(** ** Text *)

Definition nl : string := String "010"%char "".

(** A byte of the form [10xxxxxx], which continues a character. *)
Definition is_continuation (b : ascii) : bool :=
  let n := nat_of_ascii b in (128 <=? n)%nat && (n <? 192)%nat.

(** [s] goes on with the character before it. *)
Definition continues (s : string) : bool :=
  match s with
  | EmptyString => false
  | String b _ => is_continuation b
  end.

(** The characters of a text, each as the bytes of its encoding: a byte
    that is not a continuation byte, with the continuation bytes that
    follow it. *)
Fixpoint chars (s : string) : list string :=
  match s with
  | EmptyString => []
  | String b r =>
      match chars r with
      | c :: cs =>
          if continues r then String b c :: cs
          else String b EmptyString :: c :: cs
      | [] => [String b EmptyString]
      end
  end.

(** The text with the given characters. *)
Fixpoint unchars (cs : list string) : string :=
  match cs with
  | [] => EmptyString
  | c :: cs' => c +:+ unchars cs'
  end.

(** [len(s)]: the bytes that start a character. *)
Fixpoint char_length (s : string) : nat :=
  match s with
  | EmptyString => O
  | String b r => if is_continuation b then char_length r else S (char_length r)
  end.

(** The UTF-8 encoding of a code point. *)
Definition utf8_encode (cp : N) : string :=
  let byte (n : N) := ascii_of_N n in
  let low (n : N) := byte (128 + n mod 64)%N in
  if (cp <? 0x80)%N then String (byte cp) EmptyString
  else if (cp <? 0x800)%N then
    String (byte (0xC0 + cp / 64)%N) (String (low cp) EmptyString)
  else if (cp <? 0x10000)%N then
    String (byte (0xE0 + cp / 4096)%N)
      (String (low (cp / 64)%N) (String (low cp) EmptyString))
  else
    String (byte (0xF0 + cp / 262144)%N)
      (String (low (cp / 4096)%N)
         (String (low (cp / 64)%N) (String (low cp) EmptyString))).

(** The code points for which [str.isspace] holds; they are the
    characters of the class [\s] of [re] on a [str], and the ones
    [str.strip] removes. *)
Definition whitespace_code_points : list N :=
  [0x09; 0x0A; 0x0B; 0x0C; 0x0D; 0x1C; 0x1D; 0x1E; 0x1F; 0x20;
   0x85; 0xA0; 0x1680;
   0x2000; 0x2001; 0x2002; 0x2003; 0x2004; 0x2005; 0x2006; 0x2007;
   0x2008; 0x2009; 0x200A;
   0x2028; 0x2029; 0x202F; 0x205F; 0x3000]%N.

Definition whitespace : list string :=
  Eval vm_compute in map utf8_encode whitespace_code_points.

(** The code points of the digits zero of Unicode 13.0, the version of
    Python 3.10; the nine code points after each are its digits one to
    nine.  These are the characters of general category Nd: the class
    [\d] of [re] on a [str], and the digits [int] reads. *)
Definition decimal_zeros : list N :=
  [0x0030; 0x0660; 0x06F0; 0x07C0; 0x0966; 0x09E6; 0x0A66; 0x0AE6;
   0x0B66; 0x0BE6; 0x0C66; 0x0CE6; 0x0D66; 0x0DE6; 0x0E50; 0x0ED0;
   0x0F20; 0x1040; 0x1090; 0x17E0; 0x1810; 0x1946; 0x19D0; 0x1A80;
   0x1A90; 0x1B50; 0x1BB0; 0x1C40; 0x1C50; 0xA620; 0xA8D0; 0xA900;
   0xA9D0; 0xA9F0; 0xAA50; 0xABF0; 0xFF10; 0x104A0; 0x10D30; 0x11066;
   0x110F0; 0x11136; 0x111D0; 0x112F0; 0x11450; 0x114D0; 0x11650;
   0x116C0; 0x11730; 0x118E0; 0x11950; 0x11C50; 0x11D50; 0x11DA0;
   0x16A60; 0x16B50; 0x1D7CE; 0x1D7D8; 0x1D7E2; 0x1D7EC; 0x1D7F6;
   0x1E140; 0x1E2F0; 0x1E950; 0x1FBF0]%N.

Definition decimal_digits : list (string * Z) :=
  Eval vm_compute in
    flat_map (fun zero =>
                map (fun v => (utf8_encode (zero + v), Z.of_N v))
                    [0; 1; 2; 3; 4; 5; 6; 7; 8; 9]%N)
             decimal_zeros.

Definition is_space (c : string) : bool := existsb (String.eqb c) whitespace.

(** The value of a character that is a decimal digit. *)
Fixpoint assoc (c : string) (table : list (string * Z)) : option Z :=
  match table with
  | [] => None
  | (d, v) :: table' => if String.eqb c d then Some v else assoc c table'
  end.

Definition decimal_value (c : string) : option Z := assoc c decimal_digits.

Definition is_digit (c : string) : bool :=
  match decimal_value c with
  | Some _ => true
  | None => false
  end.

Definition lower_char (c : ascii) : ascii :=
  let n := nat_of_ascii c in
  if ((65 <=? n)%nat && (n <=? 90)%nat)%bool then ascii_of_nat (n + 32) else c.

(** [s.lower()], as far as the tests [needle in s.lower()] of this
    program go: the letters A to Z are lowered and every other byte is
    kept.  The needles are [data] and [intern]; the only characters
    outside ASCII whose lower case holds an ASCII letter are U+212A
    (to [k]) and U+0130 (to [i] followed by U+0307), and neither can
    complete one of these needles. *)
Fixpoint lower (s : string) : string :=
  match s with
  | EmptyString => EmptyString
  | String c s' => String (lower_char c) (lower s')
  end.

(** [s] with [p] removed from its front, when [s] starts with [p]. *)
Fixpoint strip_prefix (p s : string) : option string :=
  match p, s with
  | EmptyString, _ => Some s
  | String a p', String b s' =>
      if Ascii.eqb a b then strip_prefix p' s' else None
  | String _ _, EmptyString => None
  end.

(** [needle in hay] *)
Fixpoint contains (needle hay : string) : bool :=
  match strip_prefix needle hay with
  | Some _ => true
  | None =>
      match hay with
      | EmptyString => false
      | String _ hay' => contains needle hay'
      end
  end.

(** The characters of [cs] after its longest prefix in the class [f]. *)
Fixpoint drop_while (f : string -> bool) (cs : list string) : list string :=
  match cs with
  | [] => []
  | c :: cs' => if f c then drop_while f cs' else cs
  end.

(** The longest prefix of [cs] in the class [f], and the rest. *)
Fixpoint span (f : string -> bool) (cs : list string) : list string * list string :=
  match cs with
  | [] => ([], [])
  | c :: cs' =>
      if f c then let '(a, b) := span f cs' in (c :: a, b)
      else ([], cs)
  end.

(** [cs] with the characters [p] removed from its front. *)
Fixpoint strip_chars (p cs : list string) : option (list string) :=
  match p, cs with
  | [], _ => Some cs
  | a :: p', b :: cs' => if String.eqb a b then strip_chars p' cs' else None
  | _ :: _, [] => None
  end.

(** [s.strip()] *)
Definition strip (s : string) : string :=
  unchars (rev (drop_while is_space (rev (drop_while is_space (chars s))))).

(** [s[:n]]: the first [n] characters, each with its continuation bytes. *)
Fixpoint take_chars (n : nat) (s : string) : string :=
  match s with
  | EmptyString => EmptyString
  | String b r =>
      if is_continuation b then String b (take_chars n r)
      else match n with
           | O => EmptyString
           | S n' => String b (take_chars n' r)
           end
  end.

(** The number a run of decimal digits denotes, most significant first. *)
Fixpoint digits_value (acc : Z) (ds : list string) : Z :=
  match ds with
  | [] => acc
  | d :: ds' => digits_value (10 * acc + default 0 (decimal_value d)) ds'
  end.

(** ** Exceptions and outcomes *)

(** A Python exception (an instance of [Exception]): the name of its
    class and [str(e)], the text an f-string prints for it. *)
Record exn := Exc { exc_type : string; exc_text : string }.

Inductive outcome (A : Type) : Type :=
| Returns (a : A)
| Raises (e : exn).
Arguments Returns {A} a.
Arguments Raises {A} e.

Global Instance outcome_ret : MRet outcome := fun A a => Returns a.
Global Instance outcome_bind : MBind outcome := fun A B f m =>
  match m with
  | Returns a => f a
  | Raises e => Raises e
  end.

Definition KeyError (k : string) : exn := Exc "KeyError" ("'" +:+ k +:+ "'").
Definition IndexError : exn := Exc "IndexError" "list index out of range".
Definition AttributeError (attr : string) : exn :=
  Exc "AttributeError"
      ("'NoneType' object has no attribute '" +:+ attr +:+ "'").

(** [d[k]] on a dict that may lack the key. *)
Definition subscript {A} (k : string) (v : option A) : outcome A :=
  match v with
  | Some a => Returns a
  | None => Raises (KeyError k)
  end.

(** [[elt(x) for x in l if cond(x)]]: elements are visited in order, the
    condition is evaluated before the element, and the first exception
    ends the whole comprehension. *)
Fixpoint comprehension {A B} (cond : A -> outcome bool) (elt : A -> outcome B)
    (l : list A) : outcome (list B) :=
  match l with
  | [] => Returns []
  | x :: l' =>
      c ← cond x;
      if c : bool then
        y ← elt x; ys ← comprehension cond elt l'; Returns (y :: ys)
      else comprehension cond elt l'
  end.

(** ** [extract_score] *)

(** The longest run of digits [int] converts (the default of
    [sys.get_int_max_str_digits()]). *)
Definition int_max_str_digits : nat := 4300.

Definition ValueError_digits (n : nat) : exn :=
  Exc "ValueError"
      ("Exceeds the limit (4300 digits) for integer string conversion: value has "
       +:+ pretty n
       +:+ " digits; use sys.set_int_max_str_digits() to increase the limit").

(** [int(ds)] on a run of decimal digits: a run longer than the limit
    raises [ValueError]. *)
Definition py_int (ds : list string) : outcome Z :=
  if decide (length ds ≤ int_max_str_digits)%nat
  then Returns (digits_value 0 ds)
  else Raises (ValueError_digits (length ds)).

(** An attempt of the pattern [Score:\s*(\d+)/10] at the front of [cs]:
    group 1 when it matches there.  [\s*] and [\d+] are greedy; a
    shorter run can never help, because the character after the run
    would have to be in the class it has just left. *)
Definition match_here (cs : list string) : option (list string) :=
  match strip_chars (chars "Score:") cs with
  | None => None
  | Some r =>
      let '(ds, r') := span is_digit (drop_while is_space r) in
      match ds with
      | [] => None
      | _ :: _ =>
          match strip_chars (chars "/10") r' with
          | Some _ => Some ds
          | None => None
          end
      end
  end.

(** [re.search]: the leftmost position at which the pattern matches. *)
Fixpoint re_search (cs : list string) : option (list string) :=
  match match_here cs with
  | Some ds => Some ds
  | None =>
      match cs with
      | [] => None
      | _ :: cs' => re_search cs'
      end
  end.

Definition extract_score (text : string) : outcome Z :=
  match re_search (chars text) with
  | Some group1 => py_int group1
  | None => Returns 0
  end.

(** ** Data model *)

(** A listing, the dict with keys [title], [description] and [url]. *)
Record Job := { title : string; description : string; url : string }.

(** The cache file [seen_jobs.json], by what [os.path.exists],
    [json.load] and [set] make of it: no such file; a text that
    [json.load] rejects with the given exception; a JSON array of
    strings, the only thing [save_seen_jobs] ever writes; a JSON text of
    which [set] makes no set and raises the given [TypeError] instead
    (a number, [true], [false] or [null], or an array that holds an
    array or an object).  JSON texts that load as sets with elements
    other than strings (arrays that hold numbers, booleans or [null])
    are not covered. *)
Inductive file_state :=
| Absent
| Undecodable (err : exn)
| JsonArray (urls : list string)
| Unhashable (err : exn).

(** What [json.load] returns from the cache file, by what [set] makes of
    it. *)
Inductive json_value :=
| JArray (urls : list string)
| JOther (err : exn).

Inductive level := INFO | ERROR.

(** What a run does to the outside, in order. *)
Inductive event :=
| Log (lv : level) (msg : string)
| HttpGet (target : string) (params : list (string * option string))
| Completion (model prompt : string)
| HttpPost (target : option string) (text : string)
| Sleep (secs : nat).

(** The state that outlives a call: the cache file, and how many
    completion requests and webhook posts have been made so far (the
    services may answer every request differently). *)
Record World := {
  cache_file : file_state;
  completions : nat;
  posts : nat
}.

Definition bump_completions (w : World) : World :=
  {| cache_file := cache_file w; completions := S (completions w);
     posts := posts w |}.

Definition bump_posts (w : World) : World :=
  {| cache_file := cache_file w; completions := completions w;
     posts := S (posts w) |}.

Definition write_cache (f : file_state) (w : World) : World :=
  {| cache_file := f; completions := completions w; posts := posts w |}.

(** ** The monad of the program *)

Definition M (A : Type) : Type := World -> outcome A * World * list event.

Definition ret {A} (a : A) : M A := fun w => (Returns a, w, []).

Definition raise {A} (e : exn) : M A := fun w => (Raises e, w, []).

Definition bind {A B} (m : M A) (k : A -> M B) : M B := fun w =>
  match m w with
  | (Returns a, w1, evs1) =>
      let '(r, w2, evs2) := k a w1 in (r, w2, evs1 ++ evs2)
  | (Raises e, w1, evs1) => (Raises e, w1, evs1)
  end.

Global Instance M_ret : MRet M := @ret.
Global Instance M_bind : MBind M := fun A B k m => bind m k.

(** [try: m  except Exception as e: h e] *)
Definition try_except {A} (m : M A) (h : exn -> M A) : M A := fun w =>
  match m w with
  | (Returns a, w1, evs1) => (Returns a, w1, evs1)
  | (Raises e, w1, evs1) =>
      let '(r, w2, evs2) := h e w1 in (r, w2, evs1 ++ evs2)
  end.

(** A pure computation that may raise. *)
Definition lift {A} (o : outcome A) : M A := fun w => (o, w, []).

Definition emit (e : event) : M unit := fun w => (Returns tt, w, [e]).

Definition logging_info (msg : string) : M unit := emit (Log INFO msg).
Definition logging_error (msg : string) : M unit := emit (Log ERROR msg).
Definition time_sleep (secs : nat) : M unit := emit (Sleep secs).

Definition result {A} (x : outcome A * World * list event) : outcome A := x.1.1.
Definition world_after {A} (x : outcome A * World * list event) : World := x.1.2.
Definition events {A} (x : outcome A * World * list event) : list event := x.2.

(** ** The cache file *)

Definition FileNotFoundError : exn :=
  Exc "FileNotFoundError"
      "[Errno 2] No such file or directory: 'seen_jobs.json'".

(** [os.path.exists(CACHE_FILE)] *)
Definition os_path_exists : M bool := fun w =>
  match cache_file w with
  | Absent => ret false w
  | Undecodable _ | JsonArray _ | Unhashable _ => ret true w
  end.

(** [json.load(f)] on the cache file opened for reading. *)
Definition json_load : M json_value := fun w =>
  match cache_file w with
  | JsonArray urls => ret (JArray urls) w
  | Unhashable err => ret (JOther err) w
  | Undecodable err => raise err w
  | Absent => raise FileNotFoundError w
  end.

(** [set(v)] on what [json.load] returned. *)
Definition py_set (v : json_value) : outcome (gset string) :=
  match v with
  | JArray urls => Returns (list_to_set urls)
  | JOther err => Raises err
  end.

(** [json.dump(urls, f)] on the cache file opened for writing: the file
    is replaced. *)
Definition json_dump (urls : list string) : M unit := fun w =>
  (Returns tt, write_cache (JsonArray urls) w, []).

(** ** The outside world *)

(** Configuration read from the environment at start-up; [None] is a
    variable that is not set. *)
Record config := {
  SLACK_WEBHOOK_URL : option string;
  SERPAPI_KEY : option string
}.

(** The services the program calls.
    - [chat k prompt]: the [k]-th completion request of the process:
      the text [response.choices[0].message.content], or the exception
      raised on the way to it (by the request, by the indexing, or by
      [re.search] on a content that is no text: all of them are raised
      inside the same [try]).
    - [webhook k text]: the [k]-th [requests.post] followed by
      [raise_for_status].
    - [get_text raw]: [BeautifulSoup(raw, "html.parser").get_text()]. *)
Record services := {
  chat : nat -> string -> outcome string;
  webhook : nat -> string -> outcome unit;
  get_text : string -> outcome string
}.

(** One entry of the RemoteOK API reply, with the keys the program
    reads; [None] is a missing key. *)
Record remoteok_entry := {
  ro_position : option string;
  ro_description : option string;
  ro_url : option string
}.

(** One element selected by [a[class*=JobPreview_jobPreview]]: the text
    of its first [h2] and of its first [p] when it has one, and its
    [href] attribute when it has one. *)
Record job_preview := {
  jp_h2 : option string;
  jp_p : option string;
  jp_href : option string
}.

Record related_link := { rl_link : option string }.

(** One element of [jobs_results] in the SerpAPI reply. *)
Record google_job := {
  gj_title : option string;
  gj_description : option string;
  gj_related_links : option (list related_link)
}.

(** What the three feeds answer during one pass: the decoded reply, or
    the exception raised by the request or by decoding it.  For SerpAPI
    the reply is the value under [jobs_results], [None] without that key.
    The replies are typed as the feeds document them: a key an entry may
    lack is an [option], and a key that is there holds a text. *)
Record remote := {
  remoteok_api : outcome (list remoteok_entry);
  ycombinator_page : outcome (list job_preview);
  serpapi_search : outcome (option (list google_job))
}.

Section Program.

Context (cfg : config) (svc : services).

(** ** Seen-set store *)

Definition load_seen_jobs : M (gset string) :=
  present ← os_path_exists;
  if present : bool then
    v ← json_load;
    lift (py_set v)
  else ret ∅.

(** [list(seen)] lists the set in an order of its own; [elements] does
    the same. *)
Definition save_seen_jobs (seen : gset string) : M unit :=
  json_dump (elements seen).

(** ** Scoring *)

Definition prompt_of (job : Job) : string :=
  nl +:+
  "You are an AI job screener. Rate this job on a scale from 1 to 10 based on:" +:+ nl +:+
  "- Role relevance to 'Data Science'" +:+ nl +:+
  "- Seniority (prefer senior roles)" +:+ nl +:+
  "- Remote work option" +:+ nl +:+
  "- Salary (prefer $140k+)" +:+ nl +:+
  "Here’s the job:" +:+ nl +:+
  nl +:+
  "Title: " +:+ title job +:+ nl +:+
  "Description: " +:+ description job +:+ nl +:+
  nl +:+
  "Respond in this format:" +:+ nl +:+
  "Score: X/10" +:+ nl +:+
  "Reason: [short reason]" +:+ nl +:+
  "    ".

Definition ChatCompletion_create (model prompt : string) : M string := fun w =>
  (chat svc (completions w) prompt, bump_completions w,
   [Completion model prompt]).

Definition scoring_fallback : string :=
  "Score: 0/10" +:+ nl +:+ "Reason: Error in scoring.".

Definition score_job (job : Job) : M (Z * string) :=
  let prompt := prompt_of job in
  try_except
    (content ← ChatCompletion_create "gpt-4" prompt;
     score ← lift (extract_score content);
     ret (score, content))
    (fun e =>
       logging_error ("OpenAI error: " +:+ exc_text e);;
       ret (0, scoring_fallback)).

(** ** Slack poster *)

Definition requests_post (text : string) : M unit := fun w =>
  (webhook svc (posts w) text, bump_posts w,
   [HttpPost (SLACK_WEBHOOK_URL cfg) text]).

Definition send_to_slack (message : string) : M unit :=
  try_except
    (requests_post message)
    (fun e => logging_error ("Slack error: " +:+ exc_text e)).

(** ** Job feeds *)

(** What an f-string prints for a value that is a text or [None]. *)
Definition format_value (v : option string) : string := default "None" v.

Definition clean_html (raw_html : string) : outcome string :=
  get_text svc raw_html.

Definition remoteok_body (r : remote) : M (list Job) :=
  emit (HttpGet "https://remoteok.com/api" []);;
  reply ← lift (remoteok_api r);
  let jobs := tail reply in
  lift (comprehension
    (fun job => Returns (contains "data" (lower (default "" (ro_position job)))))
    (fun job =>
       text ← clean_html (default "" (ro_description job));
       Returns {| (* the condition held, so the key is there *)
                  title := default "" (ro_position job);
                  description := take_chars 1000 text;
                  url := "https://remoteok.com" +:+ format_value (ro_url job) |})
    jobs).

Definition fetch_remoteok_jobs (r : remote) : M (list Job) :=
  try_except (remoteok_body r)
    (fun e => logging_error ("RemoteOK error: " +:+ exc_text e);; ret []).

(** [jc.select_one("h2").text] *)
Definition h2_text (jc : job_preview) : outcome string :=
  match jp_h2 jc with
  | Some t => Returns t
  | None => Raises (AttributeError "text")
  end.

Definition ycombinator_body (r : remote) : M (list Job) :=
  emit (HttpGet "https://www.ycombinator.com/jobs" []);;
  cards ← lift (ycombinator_page r);
  lift (comprehension
    (fun jc =>
       t ← h2_text jc;
       if contains "data" (lower t)
       then t' ← h2_text jc; Returns (negb (contains "intern" (lower t')))
       else Returns false)
    (fun jc =>
       t ← h2_text jc;
       let d := match jp_p jc with Some p => strip p | None => "" end in
       h ← subscript "href" (jp_href jc);
       Returns {| title := strip t;
                  description := d;
                  url := "https://www.ycombinator.com" +:+ h |})
    cards).

Definition fetch_ycombinator_jobs (r : remote) : M (list Job) :=
  try_except (ycombinator_body r)
    (fun e => logging_error ("YC error: " +:+ exc_text e);; ret []).

Definition google_body (query location : string) (r : remote) : M (list Job) :=
  let params :=
    [("engine", Some "google_jobs");
     ("q", Some (query +:+ " " +:+ location));
     ("hl", Some "en");
     ("api_key", SERPAPI_KEY cfg)] in
  emit (HttpGet "https://serpapi.com/search" params);;
  reply ← lift (serpapi_search r);
  let jobs := default [] reply in
  lift (comprehension
    (fun _ => Returns true)
    (fun job =>
       t ← subscript "title" (gj_title job);
       d ← subscript "description" (gj_description job);
       first ← match default [ {| rl_link := None |} ] (gj_related_links job) with
               | l :: _ => Returns l
               | [] => Raises IndexError
               end;
       Returns {| title := t; description := d;
                  url := default "" (rl_link first) |})
    jobs).

Definition fetch_google_jobs (r : remote) : M (list Job) :=
  try_except (google_body "data scientist" "remote" r)
    (fun e => logging_error ("Google Jobs error: " +:+ exc_text e);; ret []).

(** ** Combine all feeds *)

Definition gather_jobs (r : remote) : M (list Job) :=
  a ← fetch_remoteok_jobs r;
  b ← fetch_ycombinator_jobs r;
  c ← fetch_google_jobs r;
  ret (a ++ b ++ c).

(** ** Main job runner *)

Definition slack_message (job : Job) (score : Z) (explanation : string) : string :=
  "*📢 " +:+ title job +:+ "*" +:+ nl +:+
  "<" +:+ url job +:+ "|View job post>" +:+ nl +:+ nl +:+
  "*Score:* " +:+ pretty score +:+ "/10" +:+ nl +:+ explanation.

(** One turn of the [for] loop of [main]. [seen_jobs] is the set loaded
    at the start, [new_seen] the set being built. *)
Definition process_job (seen_jobs : gset string) (job : Job)
    (new_seen : gset string) : M (gset string) :=
  if decide (url job ∈ seen_jobs) then
    logging_info ("Skipped (duplicate): " +:+ title job);;
    ret new_seen
  else
    '(score, explanation) ← score_job job;
    logging_info (title job +:+ " - Scored " +:+ pretty score +:+ "/10");;
    new_seen' ←
      (if decide (7 ≤ score) then
         send_to_slack (slack_message job score explanation);;
         ret ({[ url job ]} ∪ new_seen)
       else
         logging_info ("Skipped (low score): " +:+ title job +:+
                       " (" +:+ pretty score +:+ "/10)");;
         ret new_seen);
    time_sleep 2;;
    ret new_seen'.

Fixpoint process_jobs (seen_jobs : gset string) (jobs : list Job)
    (new_seen : gset string) : M (gset string) :=
  match jobs with
  | [] => ret new_seen
  | job :: rest =>
      new_seen' ← process_job seen_jobs job new_seen;
      process_jobs seen_jobs rest new_seen'
  end.

Definition main (r : remote) : M unit :=
  seen_jobs ← load_seen_jobs;
  let new_seen := seen_jobs in
  jobs ← gather_jobs r;
  new_seen' ← process_jobs seen_jobs jobs new_seen;
  save_seen_jobs new_seen'.

End Program.

(** ** Vocabulary of the properties *)

(** [cs] is empty or starts with a character outside the class [f]. *)
Definition starts_outside (f : string -> bool) (cs : list string) : bool :=
  match cs with
  | [] => true
  | c :: _ => negb (f c)
  end.

(** The pattern [Score: X/10] stands at the front of the characters
    [cs], with the digits [ds] as X: [Score:], then white space
    (possibly none), then the digits, of which there is at least one,
    then [/10]. *)
Definition matches_front (cs ds : list string) : Prop :=
  ∃ ws post,
    cs = chars "Score:" ++ ws ++ ds ++ chars "/10" ++ post ∧
    forallb is_space ws = true ∧
    forallb is_digit ds = true ∧
    ds ≠ [].

(** The text contains the pattern [Score: X/10]. *)
Definition has_pattern (text : string) : Prop :=
  ∃ pre cs ds, chars text = pre ++ cs ∧ matches_front cs ds.


(** The texts posted to the webhook, in order. *)
Definition posted (evs : list event) : list string :=
  omap (fun e => match e with HttpPost _ text => Some text | _ => None end) evs.

(** The prompts sent to the completion service, in order. *)
Definition requested (evs : list event) : list string :=
  omap (fun e => match e with Completion _ prompt => Some prompt | _ => None end) evs.

Definition returned {A} (d : A) (x : outcome A * World * list event) : A :=
  match result x with
  | Returns a => a
  | Raises _ => d
  end.

(** A guarded feed returns a list, leaves the world as it is and neither
    posts nor asks for a completion. *)
Definition quiet_feed (feed : M (list Job)) : Prop :=
  ∃ jobs evs, (∀ w, feed w = (Returns jobs, w, evs)) ∧
              posted evs = [] ∧ requested evs = [].

(** [feed] is [body] under a guard: it always returns a list, and when
    [body] raises it returns the empty list, after logging the error
    under [tag], in the world the failure left. *)
Definition guards (tag : string) (body feed : M (list Job)) : Prop :=
  ∀ w,
    (∃ jobs, result (feed w) = Returns jobs) ∧
    (∀ e, result (body w) = Raises e →
          result (feed w) = Returns [] ∧
          world_after (feed w) = world_after (body w) ∧
          events (feed w)
          = events (body w) ++ [Log ERROR (tag +:+ exc_text e)]).

Section Turns.

Context (cfg : config) (svc : services).

(** The loop of [main] after its first [i] turns. *)
Definition upto (seen_jobs : gset string) (jobs : list Job) (i : nat) : M (gset string) :=
  process_jobs cfg svc seen_jobs (take i jobs) seen_jobs.

(** Turn [i] of the loop, started where the first [i] turns left off. *)
Definition turn (seen_jobs : gset string) (jobs : list Job) (i : nat) : M (gset string) :=
  fun w =>
    let before := upto seen_jobs jobs i w in
    match jobs !! i with
    | Some job =>
        process_job cfg svc seen_jobs job (returned ∅ before) (world_after before)
    | None => (Returns (returned ∅ before), world_after before, [])
    end.

(** The score [score_job] gives the listing of turn [i] in the world that
    turn starts in (0 when no listing is there). *)
Definition score_in_turn (seen_jobs : gset string) (jobs : list Job) (i : nat)
    (w : World) : Z :=
  match jobs !! i with
  | Some job =>
      (returned (0, "") (score_job svc job (world_after (upto seen_jobs jobs i w)))).1
  | None => 0
  end.

End Turns.

(** ** A sample configuration, for running the program *)

Module Sample.

Definition cfg : config :=
  {| SLACK_WEBHOOK_URL := Some "https://hooks.slack.example/services/T0";
     SERPAPI_KEY := Some "serp-key" |}.

Definition timeout : exn := Exc "Timeout" "Request timed out".

(** A scoring service that looks at the title only and answers the same
    prompt the same way every time. *)
Definition svc : services :=
  {| chat := fun _ prompt =>
       if contains "Title: Senior" prompt then
         Returns ("Score: 8/10" +:+ nl +:+ "Reason: senior and remote")
       else if contains "Title: Data Entry" prompt then
         Returns ("Score: 3/10" +:+ nl +:+ "Reason: not data science")
       else if contains "Title: Staff" prompt then
         Returns "I cannot rate this."
       else Raises timeout;
     webhook := fun _ _ => Returns tt;
     get_text := fun raw => Returns raw |}.

(** RemoteOK answers (its first element is a notice, not a job), the
    Y Combinator page cannot be fetched, SerpAPI answers three jobs none
    of which has a link. *)
Definition feeds : remote :=
  {| remoteok_api := Returns
       [ {| ro_position := None; ro_description := None; ro_url := None |};
         {| ro_position := Some "Senior Data Scientist";
            ro_description := Some "Build models.";
            ro_url := Some "/remote-jobs/1" |} ];
     ycombinator_page := Raises (Exc "ConnectionError" "Max retries exceeded");
     serpapi_search := Returns (Some
       [ {| gj_title := Some "Senior Data Analyst";
            gj_description := Some "Dashboards.";
            gj_related_links := None |};
         {| gj_title := Some "Data Entry Clerk";
            gj_description := Some "Typing.";
            gj_related_links := None |};
         {| gj_title := Some "Senior Data Engineer";
            gj_description := Some "Pipelines.";
            gj_related_links := Some [ {| rl_link := None |} ] |} ]) |}.

(** Every feed fails, each at a different place. *)
Definition broken_feeds : remote :=
  {| remoteok_api := Raises (Exc "JSONDecodeError" "Expecting value");
     ycombinator_page := Returns
       [ {| jp_h2 := None; jp_p := None; jp_href := Some "/jobs/1" |} ];
     serpapi_search := Returns (Some
       [ {| gj_title := Some "Data Scientist";
            gj_description := Some "Models.";
            gj_related_links := Some [] |} ]) |}.

Definition scientist : Job :=
  {| title := "Senior Data Scientist"; description := "Build models.";
     url := "https://remoteok.com/remote-jobs/1" |}.
Definition analyst : Job :=
  {| title := "Senior Data Analyst"; description := "Dashboards."; url := "" |}.
Definition clerk : Job :=
  {| title := "Data Entry Clerk"; description := "Typing."; url := "" |}.
Definition engineer : Job :=
  {| title := "Senior Data Engineer"; description := "Pipelines."; url := "" |}.
Definition staff : Job :=
  {| title := "Staff Statistician"; description := "Surveys.";
     url := "https://example.org/jobs/7" |}.
Definition intern : Job :=
  {| title := "Machine Learning Intern"; description := "Labelling.";
     url := "https://example.org/jobs/8" |}.

Definition listings : list Job := [scientist; analyst; clerk; engineer].

(** No cache file yet. *)
Definition fresh : World :=
  {| cache_file := Absent; completions := 0; posts := 0 |}.

(** A cache file that holds the url of [scientist]. *)
Definition visited : World :=
  {| cache_file := JsonArray ["https://remoteok.com/remote-jobs/1"];
     completions := 0; posts := 0 |}.

Definition decode_error : exn :=
  Exc "JSONDecodeError" "Expecting value: line 1 column 1 (char 0)".

(** A cache file that is not JSON. *)
Definition corrupt : World :=
  {| cache_file := Undecodable decode_error; completions := 0; posts := 0 |}.

End Sample.

(** ** Vocabulary of the further properties *)

(** Every byte of the text is below 128. *)
Fixpoint ascii_text (s : string) : bool :=
  match s with
  | EmptyString => true
  | String b r => (nat_of_ascii b <? 128)%nat && ascii_text r
  end.

(** The bytes of a text, each as a character of its own. *)
Definition singles (s : string) : list string :=
  map (fun b => String b EmptyString) (list_ascii_of_string s).

(** The seconds the run has slept. *)
Definition slept (evs : list event) : nat :=
  sum_list (omap (fun e => match e with Sleep n => Some n | _ => None end) evs).

(** The url [fetch_google_jobs] gives a result: the [link] of its first
    related link, and the empty text when the result has no
    [related_links] or that link has no [link]. *)
Definition first_link (g : google_job) : option string :=
  match gj_related_links g with
  | None => Some ""
  | Some [] => None
  | Some (l :: _) => Some (default "" (rl_link l))
  end.

Section Passes.

Context (cfg : config) (svc : services).

(** What turn [i] of the loop posts: the message of its listing when the
    url is new and the score reaches 7, nothing otherwise. *)
Definition notification (seen_jobs : gset string) (jobs : list Job) (i : nat)
    (w : World) : list string :=
  match jobs !! i with
  | Some job =>
      let s := returned (0, "")
                 (score_job svc job (world_after (upto cfg svc seen_jobs jobs i w))) in
      if decide ((url job ∉ seen_jobs) ∧ (7 ≤ s.1))
      then [slack_message job s.1 s.2] else []
  | None => []
  end.

(** The world after one pass per element of [rs], each started where the
    one before stopped (an aborted pass leaves the world as it found it). *)
Definition passes (rs : list remote) (w : World) : World :=
  foldl (fun w r => world_after (main cfg svc r w)) w rs.

End Passes.

Module Outage.

(** The sample services with the webhook down. *)
Definition svc : services :=
  {| chat := chat Sample.svc;
     webhook := fun _ _ => Raises (Exc "HTTPError" "503 Server Error");
     get_text := get_text Sample.svc |}.

(** A RemoteOK reply of a notice and one job with a long description. *)
Definition feeds : remote :=
  {| remoteok_api := Returns
       [ {| ro_position := Some "Data notice"; ro_description := None;
            ro_url := None |};
         {| ro_position := Some "DATA Engineer";
            ro_description := Some "Pipelines and more pipelines.";
            ro_url := None |} ];
     ycombinator_page := Returns
       [ {| jp_h2 := Some "  Data Scientist "; jp_p := Some " Models ";
            jp_href := Some "/companies/x/jobs/1" |};
         {| jp_h2 := Some "Data Science Intern"; jp_p := None;
            jp_href := None |} ];
     serpapi_search := Returns None |}.

End Outage.

(** Unfolds the monad down to the triple a computation yields. *)
Ltac run := unfold mbind, M_bind, bind, mret, M_ret, ret, raise, try_except, lift,
  logging_info, logging_error, time_sleep, emit, result, world_after,
  events, returned; simpl.

(** * Properties *)

(** ** Text *)

Lemma app_cons (c : ascii) (s t : string) : String c s +:+ t = String c (s +:+ t).
Proof. reflexivity. Qed.

Lemma app_empty_l (s : string) : "" +:+ s = s.
Proof. reflexivity. Qed.

Lemma strip_chars_app (p r : list string) : strip_chars p (p ++ r) = Some r.
Proof.
  induction p as [|a p IH]; [reflexivity|].
  simpl. by rewrite String.eqb_refl.
Qed.

Lemma strip_chars_Some (p cs r : list string) :
  strip_chars p cs = Some r → cs = p ++ r.
Proof.
  revert cs. induction p as [|a p IH]; intros cs H.
  - simpl in H. by injection H as ->.
  - destruct cs as [|b cs]; [discriminate|]. simpl in H.
    destruct (String.eqb a b) eqn:E; [|discriminate].
    apply String.eqb_eq in E as ->. simpl. f_equal. by apply IH.
Qed.

Lemma span_spec (f : string -> bool) (cs a b : list string) :
  span f cs = (a, b) →
  cs = a ++ b ∧ forallb f a = true ∧ starts_outside f b = true.
Proof.
  revert a b. induction cs as [|c cs IH]; intros a b H; simpl in H.
  - by injection H as <- <-.
  - destruct (f c) eqn:Fc.
    + destruct (span f cs) as [a' b'] eqn:E. injection H as <- <-.
      destruct (IH a' b' eq_refl) as (-> & Ha & Hb).
      simpl. by rewrite Fc, Ha.
    + injection H as <- <-. simpl. by rewrite Fc.
Qed.

Lemma span_app (f : string -> bool) (a b : list string) :
  forallb f a = true → starts_outside f b = true → span f (a ++ b) = (a, b).
Proof.
  intros Ha Hb. induction a as [|c a IH].
  - destruct b as [|c b]; [reflexivity|].
    simpl in *. by destruct (f c).
  - simpl in Ha. apply andb_true_iff in Ha as [Hc Ha].
    simpl. by rewrite Hc, (IH Ha).
Qed.

Lemma drop_while_span (f : string -> bool) (cs : list string) :
  drop_while f cs = (span f cs).2.
Proof.
  induction cs as [|c cs IH]; [reflexivity|]. simpl.
  destruct (f c); [|reflexivity]. rewrite IH. by destruct (span f cs).
Qed.

Lemma assoc_In (c : string) (table : list (string * Z)) (v : Z) :
  assoc c table = Some v → In (c, v) table.
Proof.
  induction table as [|[d u] table IH]; [done|]. simpl.
  destruct (String.eqb c d) eqn:E.
  - apply String.eqb_eq in E as ->. intros [= ->]. by left.
  - intros H. right. by apply IH.
Qed.

(** Every decimal digit has a value from 0 to 9 and is no white space. *)
Lemma decimal_digits_facts (c : string) (v : Z) :
  decimal_value c = Some v → is_space c = false ∧ 0 ≤ v ≤ 9.
Proof.
  intros H%assoc_In.
  assert (T : forallb (fun '(d, u) =>
                         negb (is_space d) && (0 <=? u) && (u <=? 9))
                      decimal_digits = true) by (vm_compute; reflexivity).
  rewrite forallb_forall in T. specialize (T _ H). simpl in T.
  apply andb_true_iff in T as [[T1 T2]%andb_true_iff T3].
  apply negb_true_iff in T1. split; [done|]. lia.
Qed.

Lemma digit_not_space (c : string) : is_digit c = true → is_space c = false.
Proof.
  unfold is_digit. destruct (decimal_value c) as [v|] eqn:E; [|done].
  intros _. by destruct (decimal_digits_facts c v E).
Qed.

Lemma digits_value_nonneg (ds : list string) (acc : Z) :
  0 ≤ acc → 0 ≤ digits_value acc ds.
Proof.
  revert acc. induction ds as [|c ds IH]; intros acc Hacc; [done|].
  simpl. apply IH.
  destruct (decimal_value c) as [v|] eqn:E; simpl; [|lia].
  destruct (decimal_digits_facts c v E). lia.
Qed.

Lemma py_int_nonneg (ds : list string) (n : Z) : py_int ds = Returns n → 0 ≤ n.
Proof.
  unfold py_int. case_decide; [|done]. intros [= <-].
  by apply digits_value_nonneg.
Qed.

(** What an attempt at the front of the text finds. *)
Lemma match_here_Some (cs ds : list string) :
  match_here cs = Some ds → matches_front cs ds.
Proof.
  unfold match_here. intros H.
  destruct (strip_chars (chars "Score:") cs) as [r|] eqn:E1; [|discriminate].
  apply strip_chars_Some in E1 as ->.
  rewrite drop_while_span in H.
  destruct (span is_space r) as [ws r1] eqn:E2.
  destruct (span_spec _ _ _ _ E2) as (-> & Hws & _). cbn [snd] in H.
  destruct (span is_digit r1) as [ds' r2] eqn:E3.
  destruct (span_spec _ _ _ _ E3) as (-> & Hds & _).
  destruct ds' as [|d ds']; [discriminate|].
  destruct (strip_chars (chars "/10") r2) as [post|] eqn:E4; [|discriminate].
  apply strip_chars_Some in E4 as ->. injection H as <-.
  by exists ws, post.
Qed.

Lemma match_here_complete (cs ds : list string) :
  matches_front cs ds → match_here cs = Some ds.
Proof.
  intros (ws & post & -> & Hws & Hds & Hne). unfold match_here.
  rewrite strip_chars_app.
  rewrite drop_while_span, (span_app is_space ws); [|done|].
  - cbn [snd]. rewrite (span_app is_digit ds); [|done|by vm_compute].
    destruct ds as [|d ds]; [done|]. by rewrite strip_chars_app.
  - destruct ds as [|d ds]; [done|]. simpl in *.
    apply andb_true_iff in Hds as [Hd _]. by rewrite (digit_not_space d Hd).
Qed.

Lemma re_search_eq (cs : list string) :
  re_search cs =
  match match_here cs with
  | Some ds => Some ds
  | None => match cs with
            | [] => None
            | _ :: cs' => re_search cs'
            end
  end.
Proof. by destruct cs. Qed.

Lemma re_search_Some (cs ds : list string) :
  re_search cs = Some ds → ∃ pre cs', cs = pre ++ cs' ∧ matches_front cs' ds.
Proof.
  induction cs as [|c cs IH]; rewrite re_search_eq.
  - destruct (match_here []) eqn:E; [|done]. intros [= <-].
    exists [], []. split; [done|]. by apply match_here_Some.
  - destruct (match_here (c :: cs)) as [m|] eqn:E.
    + intros [= <-]. exists [], (c :: cs). split; [done|].
      by apply match_here_Some.
    + intros H. destruct (IH H) as (pre & cs' & -> & Hm).
      by exists (c :: pre), cs'.
Qed.



Lemma re_search_complete (pre cs ds : list string) :
  matches_front cs ds → ∃ ds', re_search (pre ++ cs) = Some ds'.
Proof.
  intros Hm. induction pre as [|c pre IH]; rewrite re_search_eq.
  - simpl. rewrite (match_here_complete cs ds Hm). eauto.
  - destruct (match_here _) as [m|]; [by exists m | exact IH].
Qed.

Lemma has_pattern_search (text : string) :
  has_pattern text ↔ re_search (chars text) ≠ None.
Proof.
  split.
  - intros (pre & cs & ds & -> & Hm).
    destruct (re_search_complete pre cs ds Hm) as [ds' ->]. done.
  - destruct (re_search (chars text)) as [ds|] eqn:E; [|done].
    intros _. destruct (re_search_Some _ _ E) as (pre & cs & Heq & Hm).
    by exists pre, cs, ds.
Qed.

Lemma extract_score_no_pattern (text : string) :
  ¬ has_pattern text → extract_score text = Returns 0.
Proof.
  rewrite has_pattern_search. unfold extract_score.
  by destruct (re_search (chars text)); [intros []|].
Qed.

Lemma extract_score_Returns (text : string) (n : Z) :
  extract_score text = Returns n → 0 ≤ n ∧ (n ≠ 0 → has_pattern text).
Proof.
  unfold extract_score. rewrite has_pattern_search.
  destruct (re_search (chars text)) as [ds|] eqn:E.
  - intros H%py_int_nonneg. done.
  - intros [= <-]. done.
Qed.

(** ** The monad *)

Lemma bind_returns {A B} (m : M A) (k : A -> M B) (w w1 : World)
    (a : A) (evs1 : list event) :
  m w = (Returns a, w1, evs1) →
  (m ≫= k) w = ((k a w1).1.1, (k a w1).1.2, evs1 ++ (k a w1).2).
Proof.
  intros E. unfold mbind, M_bind, bind. rewrite E.
  by destruct (k a w1) as [[? ?] ?].
Qed.

Lemma bind_raises {A B} (m : M A) (k : A -> M B) (w w1 : World)
    (e : exn) (evs1 : list event) :
  m w = (Raises e, w1, evs1) → (m ≫= k) w = (Raises e, w1, evs1).
Proof. intros E. unfold mbind, M_bind, bind. by rewrite E. Qed.

Lemma events_triple {A} (o : outcome A) (w : World) (evs : list event) :
  events (o, w, evs) = evs.
Proof. reflexivity. Qed.

Lemma posted_app (a b : list event) : posted (a ++ b) = posted a ++ posted b.
Proof. apply omap_app. Qed.

Lemma requested_app (a b : list event) :
  requested (a ++ b) = requested a ++ requested b.
Proof. apply omap_app. Qed.

Section Proofs.

Context (cfg : config) (svc : services).

(** ** Scoring *)

Lemma score_job_eq (job : Job) (w : World) :
  score_job svc job w =
  match chat svc (completions w) (prompt_of job) ≫= (fun content =>
          score ← extract_score content; Returns (score, content)) with
  | Returns reply =>
      (Returns reply, bump_completions w,
       [Completion "gpt-4" (prompt_of job)])
  | Raises e =>
      (Returns (0, scoring_fallback), bump_completions w,
       [Completion "gpt-4" (prompt_of job);
        Log ERROR ("OpenAI error: " +:+ exc_text e)])
  end.
Proof.
  unfold score_job, ChatCompletion_create. run.
  destruct (chat svc _ _) as [content|e]; simpl; [|done].
  by destruct (extract_score content).
Qed.

Lemma score_job_returns (job : Job) (w : World) :
  ∃ score explanation,
    result (score_job svc job w) = Returns (score, explanation) ∧
    world_after (score_job svc job w) = bump_completions w ∧
    requested (events (score_job svc job w)) = [prompt_of job] ∧
    posted (events (score_job svc job w)) = [].
Proof.
  rewrite score_job_eq. destruct (_ ≫= _) as [[score content]|e]; eauto 10.
Qed.

(** ** Slack poster *)

Lemma send_to_slack_eq (message : string) (w : World) :
  send_to_slack cfg svc message w =
  (Returns tt, bump_posts w,
   HttpPost (SLACK_WEBHOOK_URL cfg) message ::
   match webhook svc (posts w) message with
   | Returns _ => []
   | Raises e => [Log ERROR ("Slack error: " +:+ exc_text e)]
   end).
Proof.
  unfold send_to_slack, requests_post. run.
  by destruct (webhook svc _ _) as [[]|].
Qed.

(** ** One turn of the loop *)

Lemma process_job_eq (seen_jobs : gset string) (job : Job)
    (new_seen : gset string) (w : World) :
  process_job cfg svc seen_jobs job new_seen w =
  if decide (url job ∈ seen_jobs) then
    (Returns new_seen, w, [Log INFO ("Skipped (duplicate): " +:+ title job)])
  else
    let s := score_job svc job w in
    let score := (returned (0, "") s).1 in
    let explanation := (returned (0, "") s).2 in
    if decide (7 ≤ score) then
      (Returns ({[ url job ]} ∪ new_seen), bump_posts (bump_completions w),
       events s ++
       Log INFO (title job +:+ " - Scored " +:+ pretty score +:+ "/10") ::
       events (send_to_slack cfg svc (slack_message job score explanation)
                 (bump_completions w)) ++
       [Sleep 2])
    else
      (Returns new_seen, bump_completions w,
       events s ++
       [Log INFO (title job +:+ " - Scored " +:+ pretty score +:+ "/10");
        Log INFO ("Skipped (low score): " +:+ title job +:+
                  " (" +:+ pretty score +:+ "/10)");
        Sleep 2]).
Proof.
  unfold process_job. destruct (decide (url job ∈ seen_jobs)); [done|].
  cbv zeta. rewrite send_to_slack_eq.
  unfold mbind at 1, M_bind at 1, bind at 1. rewrite score_job_eq.
  destruct (_ ≫= _) as [[score content]|e].
  - run. destruct (decide (7 ≤ score)).
    + rewrite send_to_slack_eq. run.
      by destruct (webhook svc _ _).
    + by run.
  - run. destruct (decide (7 ≤ 0)); [lia|]. by run.
Qed.

Lemma process_job_returns (seen_jobs : gset string) (job : Job)
    (new_seen : gset string) (w : World) :
  ∃ new_seen' w' evs,
    process_job cfg svc seen_jobs job new_seen w = (Returns new_seen', w', evs).
Proof.
  rewrite process_job_eq. cbv zeta.
  repeat case_decide; eauto.
Qed.

(** What one turn does, by the two tests of the loop body. *)
Lemma process_job_summary (seen_jobs : gset string) (job : Job)
    (new_seen : gset string) (w : World) :
  let s := returned (0, "") (score_job svc job w) in
  let t := process_job cfg svc seen_jobs job new_seen w in
  result t = Returns (if decide ((url job ∉ seen_jobs) ∧ (7 ≤ s.1))
                      then {[ url job ]} ∪ new_seen else new_seen) ∧
  posted (events t) = (if decide ((url job ∉ seen_jobs) ∧ (7 ≤ s.1))
                       then [slack_message job s.1 s.2] else []) ∧
  requested (events t) = (if decide (url job ∈ seen_jobs)
                          then [] else [prompt_of job]).
Proof.
  cbv zeta. rewrite process_job_eq. cbv zeta.
  destruct (score_job_returns job w) as (sc & ex & Hr & _ & Hq & Hp).
  destruct (decide (url job ∈ seen_jobs)) as [Hin|Hin].
  { rewrite !decide_False by (intros [? ?]; done). done. }
  unfold returned. rewrite Hr. simpl.
  destruct (decide (7 ≤ sc)) as [Hsc|Hsc].
  - rewrite !decide_True by done. rewrite send_to_slack_eq.
    unfold result, events. simpl.
    rewrite posted_app, requested_app. unfold events in Hp, Hq.
    rewrite Hp, Hq. simpl.
    by destruct (webhook svc _ _).
  - rewrite !decide_False by (intros [? ?]; done). unfold result, events. simpl.
    rewrite posted_app, requested_app. unfold events in Hp, Hq.
    by rewrite Hp, Hq.
Qed.

(** ** The loop *)

Lemma process_jobs_app (seen_jobs : gset string) (l1 l2 : list Job)
    (new_seen : gset string) (w : World) :
  process_jobs cfg svc seen_jobs (l1 ++ l2) new_seen w =
  let x := process_jobs cfg svc seen_jobs l1 new_seen w in
  let y := process_jobs cfg svc seen_jobs l2 (returned ∅ x) (world_after x) in
  (result y, world_after y, events x ++ events y).
Proof.
  revert new_seen w. induction l1 as [|job l1 IH]; intros new_seen w; cbv zeta.
  - simpl. unfold returned, result, world_after, events, ret. simpl.
    by destruct (process_jobs _ _ _ _ _ _) as [[? ?] ?].
  - simpl.
    destruct (process_job_returns seen_jobs job new_seen w) as (n1 & w1 & e1 & E).
    rewrite !(bind_returns _ _ _ _ _ _ E). rewrite IH. cbv zeta.
    unfold returned, result, world_after, events. simpl.
    by rewrite app_assoc.
Qed.

Lemma process_jobs_returns (seen_jobs : gset string) (jobs : list Job)
    (new_seen : gset string) (w : World) :
  ∃ new_seen' w' evs,
    process_jobs cfg svc seen_jobs jobs new_seen w = (Returns new_seen', w', evs).
Proof.
  revert new_seen w. induction jobs as [|job jobs IH]; intros new_seen w.
  - by exists new_seen, w, [].
  - simpl.
    destruct (process_job_returns seen_jobs job new_seen w) as (n1 & w1 & e1 & E).
    rewrite (bind_returns _ _ _ _ _ _ E).
    destruct (IH n1 w1) as (n2 & w2 & e2 & ->). simpl. eauto.
Qed.

Lemma upto_returns (seen_jobs : gset string) (jobs : list Job) (i : nat) (w : World) :
  result (upto cfg svc seen_jobs jobs i w)
  = Returns (returned ∅ (upto cfg svc seen_jobs jobs i w)).
Proof.
  unfold upto.
  destruct (process_jobs_returns seen_jobs (take i jobs) seen_jobs w)
    as (n & w' & e & ->). done.
Qed.

Lemma upto_0 (seen_jobs : gset string) (jobs : list Job) (w : World) :
  upto cfg svc seen_jobs jobs 0 w = (Returns seen_jobs, w, []).
Proof. unfold upto. by rewrite take_0. Qed.

(** The loop after [i + 1] turns is the loop after [i] turns followed by
    turn [i]. *)
Lemma upto_S (seen_jobs : gset string) (jobs : list Job) (i : nat) (w : World) :
  upto cfg svc seen_jobs jobs (S i) w =
  (result (turn cfg svc seen_jobs jobs i w),
   world_after (turn cfg svc seen_jobs jobs i w),
   events (upto cfg svc seen_jobs jobs i w)
   ++ events (turn cfg svc seen_jobs jobs i w)).
Proof.
  unfold turn. cbv zeta. destruct (jobs !! i) as [job|] eqn:E.
  - unfold upto at 1. rewrite (take_S_r _ _ _ E), process_jobs_app. cbv zeta.
    fold (upto cfg svc seen_jobs jobs i). simpl.
    destruct (process_job_returns seen_jobs job
                (returned ∅ (upto cfg svc seen_jobs jobs i w))
                (world_after (upto cfg svc seen_jobs jobs i w)))
      as (n1 & w1 & e1 & E1).
    rewrite (bind_returns _ _ _ _ _ _ E1), E1.
    unfold result, world_after, events, ret. simpl. by rewrite app_nil_r.
  - apply lookup_ge_None in E.
    pose proof (upto_returns seen_jobs jobs i w) as R.
    unfold upto in *. rewrite !take_ge by lia. rewrite take_ge in R by lia.
    unfold result, world_after, events in *. simpl. rewrite app_nil_r.
    destruct (process_jobs _ _ _ _ _ _) as [[? ?] ?]. simpl in *. by rewrite R.
Qed.

Lemma upto_all (seen_jobs : gset string) (jobs : list Job) (w : World) :
  process_jobs cfg svc seen_jobs jobs seen_jobs w
  = upto cfg svc seen_jobs jobs (length jobs) w.
Proof. unfold upto. by rewrite firstn_all. Qed.

Lemma upto_events_prefix (seen_jobs : gset string) (jobs : list Job)
    (i n : nat) (w : World) :
  (i ≤ n)%nat →
  ∃ rest, events (upto cfg svc seen_jobs jobs n w)
          = events (upto cfg svc seen_jobs jobs i w) ++ rest.
Proof.
  induction 1 as [|n Hle [rest IH]].
  - exists []. by rewrite app_nil_r.
  - rewrite upto_S. unfold events at 1. simpl. rewrite IH.
    eexists. by rewrite <- app_assoc.
Qed.

(** The events of any one turn are a segment of the events of the loop. *)
Lemma turn_events_segment (seen_jobs : gset string) (jobs : list Job)
    (i : nat) (w : World) :
  (i < length jobs)%nat →
  ∃ rest, events (process_jobs cfg svc seen_jobs jobs seen_jobs w)
          = events (upto cfg svc seen_jobs jobs i w)
            ++ events (turn cfg svc seen_jobs jobs i w) ++ rest.
Proof.
  intros Hi. rewrite upto_all.
  destruct (upto_events_prefix seen_jobs jobs (S i) (length jobs) w)
    as [rest E]; [lia|].
  rewrite upto_S in E. unfold events at 2 in E. simpl in E.
  exists rest. by rewrite E, <- app_assoc.
Qed.

(** Which urls the loop has added after [i] turns. *)
Lemma upto_elem (seen_jobs : gset string) (jobs : list Job) (i : nat)
    (w : World) (u : string) :
  u ∈ returned ∅ (upto cfg svc seen_jobs jobs i w) ↔
  u ∈ seen_jobs ∨
  ∃ k job, (k < i)%nat ∧ jobs !! k = Some job ∧ url job = u ∧
           (url job ∉ seen_jobs) ∧ 7 ≤ score_in_turn cfg svc seen_jobs jobs k w.
Proof.
  induction i as [|i IH].
  - rewrite upto_0. unfold returned, result. simpl. split; [by left|].
    intros [H|(k & job & Hk & _)]; [done|lia].
  - rewrite upto_S. unfold returned at 1, result at 1. simpl.
    unfold turn. cbv zeta. destruct (jobs !! i) as [job|] eqn:E.
    + destruct (process_job_summary seen_jobs job
                  (returned ∅ (upto cfg svc seen_jobs jobs i w))
                  (world_after (upto cfg svc seen_jobs jobs i w)))
        as (R & _ & _).
      rewrite R.
      assert (HS : score_in_turn cfg svc seen_jobs jobs i w
                  = (returned (0, "") (score_job svc job
                       (world_after (upto cfg svc seen_jobs jobs i w)))).1).
      { unfold score_in_turn. by rewrite E. }
      rewrite <- HS. clear R. destruct (decide _) as [D|D].
      * rewrite elem_of_union, elem_of_singleton, IH. split.
        -- intros [->|[H|(k & job' & Hk & H)]].
           ++ right. exists i, job. split; [lia|]. tauto.
           ++ by left.
           ++ right. exists k, job'. split; [lia|]. tauto.
        -- intros [H|(k & job' & Hk & Hj & Hu & H)]; [tauto|].
           destruct (decide (k = i)) as [->|Hne].
           ++ left. congruence.
           ++ right. right. exists k, job'. split; [lia|]. tauto.
      * rewrite IH. split.
        -- intros [H|(k & job' & Hk & H)]; [by left|].
           right. exists k, job'. split; [lia|]. tauto.
        -- intros [H|(k & job' & Hk & Hj & Hu & Hn & Hs)]; [by left|].
           destruct (decide (k = i)) as [->|Hne].
           ++ rewrite E in Hj. injection Hj as <-. tauto.
           ++ right. exists k, job'. split; [lia|]. tauto.
    + unfold result. simpl. rewrite IH. split.
      * intros [H|(k & job' & Hk & H)]; [by left|].
        right. exists k, job'. split; [lia|]. tauto.
      * intros [H|(k & job' & Hk & Hj & H)]; [by left|].
        right. exists k, job'. split; [|tauto].
        apply lookup_lt_Some in Hj. apply lookup_ge_None in E. lia.
Qed.

(** ** The feeds *)

Lemma guard_eq (tag : string) (body : M (list Job)) (w : World) :
  try_except body
    (fun e => logging_error (tag +:+ exc_text e);; ret []) w =
  match body w with
  | (Returns jobs, w1, evs) => (Returns jobs, w1, evs)
  | (Raises e, w1, evs) =>
      (Returns [], w1, evs ++ [Log ERROR (tag +:+ exc_text e)])
  end.
Proof. run. by destruct (body w) as [[[?|?] ?] ?]. Qed.

Lemma remoteok_body_eq (r : remote) :
  ∃ o, ∀ w, remoteok_body svc r w
            = (o, w, [HttpGet "https://remoteok.com/api" []]).
Proof.
  unfold remoteok_body. run.
  destruct (remoteok_api r) as [reply|e]; [|by eexists].
  destruct (comprehension _ _ (tail reply)); by eexists.
Qed.

Lemma ycombinator_body_eq (r : remote) :
  ∃ o, ∀ w, ycombinator_body r w
            = (o, w, [HttpGet "https://www.ycombinator.com/jobs" []]).
Proof.
  unfold ycombinator_body. run.
  destruct (ycombinator_page r) as [cards|e]; [|by eexists].
  destruct (comprehension _ _ cards); by eexists.
Qed.

Lemma google_body_eq (query location : string) (r : remote) :
  ∃ o get, ∀ w, google_body cfg query location r w = (o, w, [get]) ∧
                posted [get] = [] ∧ requested [get] = [].
Proof.
  unfold google_body. run.
  destruct (serpapi_search r) as [reply|e]; [|by eexists _, _].
  destruct (comprehension _ _ (default [] reply)); by eexists _, _.
Qed.

Lemma fetch_remoteok_jobs_quiet (r : remote) :
  quiet_feed (fetch_remoteok_jobs svc r).
Proof.
  destruct (remoteok_body_eq r) as [[jobs|e] E]; unfold fetch_remoteok_jobs.
  - exists jobs, [HttpGet "https://remoteok.com/api" []].
    split; [|done]. intros w. by rewrite guard_eq, E.
  - eexists [], _. split; [intros w; by rewrite guard_eq, E|done].
Qed.

Lemma fetch_ycombinator_jobs_quiet (r : remote) :
  quiet_feed (fetch_ycombinator_jobs r).
Proof.
  destruct (ycombinator_body_eq r) as [[jobs|e] E]; unfold fetch_ycombinator_jobs.
  - eexists jobs, _. split; [intros w; by rewrite guard_eq, E|done].
  - eexists [], _. split; [intros w; by rewrite guard_eq, E|done].
Qed.

Lemma fetch_google_jobs_quiet (r : remote) :
  quiet_feed (fetch_google_jobs cfg r).
Proof.
  destruct (google_body_eq "data scientist" "remote" r) as ([jobs|e] & get & E);
    unfold fetch_google_jobs.
  - exists jobs, [get]. split; [|apply (E {| cache_file := Absent; completions := 0; posts := 0 |})].
    intros w. rewrite guard_eq. by destruct (E w) as [-> _].
  - eexists [], _. split.
    + intros w. rewrite guard_eq. by destruct (E w) as [-> _].
    + destruct (E {| cache_file := Absent; completions := 0; posts := 0 |})
        as (_ & P & Q).
      rewrite posted_app, requested_app, P, Q. done.
Qed.

Lemma gather_jobs_quiet (r : remote) : quiet_feed (gather_jobs cfg svc r).
Proof.
  destruct (fetch_remoteok_jobs_quiet r) as (a & ea & Ea & Pa & Qa).
  destruct (fetch_ycombinator_jobs_quiet r) as (b & eb & Eb & Pb & Qb).
  destruct (fetch_google_jobs_quiet r) as (c & ec & Ec & Pc & Qc).
  exists (a ++ b ++ c), (ea ++ eb ++ ec). split.
  - intros w. unfold gather_jobs.
    rewrite (bind_returns _ _ _ _ _ _ (Ea w)).
    rewrite (bind_returns _ _ _ _ _ _ (Eb w)).
    rewrite (bind_returns _ _ _ _ _ _ (Ec w)).
    unfold mret, M_ret, ret. simpl. by rewrite app_nil_r.
  - rewrite !posted_app, !requested_app, Pa, Pb, Pc, Qa, Qb, Qc. done.
Qed.

(** ** The pass *)

Lemma load_seen_jobs_eq (w : World) :
  load_seen_jobs w = (result (load_seen_jobs w), w, []).
Proof.
  unfold load_seen_jobs, os_path_exists, json_load.
  destruct (cache_file w) eqn:E; run; by rewrite ?E.
Qed.

Lemma load_seen_jobs_array (w : World) (urls : list string) :
  cache_file w = JsonArray urls →
  result (load_seen_jobs w) = Returns (list_to_set urls).
Proof.
  intros E. unfold load_seen_jobs, os_path_exists, json_load.
  run. rewrite E. simpl. by rewrite E.
Qed.

Lemma main_aborts (r : remote) (w : World) (e : exn) :
  result (load_seen_jobs w) = Raises e → main cfg svc r w = (Raises e, w, []).
Proof.
  intros E. unfold main. apply bind_raises.
  by rewrite load_seen_jobs_eq, E.
Qed.

Lemma main_eq (r : remote) (w : World) (seen_jobs : gset string) (jobs : list Job) :
  result (load_seen_jobs w) = Returns seen_jobs →
  result (gather_jobs cfg svc r w) = Returns jobs →
  let loop := process_jobs cfg svc seen_jobs jobs seen_jobs w in
  main cfg svc r w =
  (Returns tt,
   write_cache (JsonArray (elements (returned ∅ loop))) (world_after loop),
   events (gather_jobs cfg svc r w) ++ events loop).
Proof.
  intros El Eg. cbv zeta. unfold main.
  pose proof (load_seen_jobs_eq w) as E1. rewrite El in E1.
  rewrite (bind_returns _ _ _ _ _ _ E1). cbv zeta.
  destruct (gather_jobs_quiet r) as (jobs' & ge & Eg' & _).
  rewrite Eg' in Eg. injection Eg as ->.
  rewrite (bind_returns _ _ _ _ _ _ (Eg' w)).
  destruct (process_jobs_returns seen_jobs jobs seen_jobs w) as (n & w1 & e1 & E2).
  rewrite (bind_returns _ _ _ _ _ _ E2), Eg', E2.
  unfold save_seen_jobs, returned, result, world_after, events. simpl.
  by rewrite app_nil_r.
Qed.

Lemma turn_job (seen_jobs : gset string) (jobs : list Job) (i : nat)
    (w : World) (job : Job) :
  jobs !! i = Some job →
  turn cfg svc seen_jobs jobs i w =
  process_job cfg svc seen_jobs job
    (returned ∅ (upto cfg svc seen_jobs jobs i w))
    (world_after (upto cfg svc seen_jobs jobs i w)).
Proof. intros E. unfold turn. by rewrite E. Qed.

Lemma score_in_turn_job (seen_jobs : gset string) (jobs : list Job) (i : nat)
    (w : World) (job : Job) :
  jobs !! i = Some job →
  score_in_turn cfg svc seen_jobs jobs i w =
  (returned (0, "") (score_job svc job
     (world_after (upto cfg svc seen_jobs jobs i w)))).1.
Proof. intros E. unfold score_in_turn. by rewrite E. Qed.

(** The events of a turn stand, as one block, in the events of the pass. *)
Lemma turn_in_main (r : remote) (w : World) (seen_jobs : gset string)
    (jobs : list Job) (i : nat) :
  result (load_seen_jobs w) = Returns seen_jobs →
  result (gather_jobs cfg svc r w) = Returns jobs →
  (i < length jobs)%nat →
  ∃ pre post,
    events (main cfg svc r w)
    = pre ++ events (turn cfg svc seen_jobs jobs i w) ++ post.
Proof.
  intros El Eg Hi. rewrite (main_eq r w seen_jobs jobs El Eg). cbv zeta.
  destruct (turn_events_segment seen_jobs jobs i w Hi) as [rest E].
  unfold events at 1. simpl. rewrite E.
  eexists (_ ++ _), rest. by rewrite <- app_assoc.
Qed.

(** What a later run would load after a pass that could load its own set. *)
Lemma persisted_after_main (r : remote) (w : World) (seen_jobs : gset string)
    (jobs : list Job) :
  result (load_seen_jobs w) = Returns seen_jobs →
  result (gather_jobs cfg svc r w) = Returns jobs →
  result (load_seen_jobs (world_after (main cfg svc r w)))
  = Returns (returned ∅ (upto cfg svc seen_jobs jobs (length jobs) w)).
Proof.
  intros El Eg. rewrite (main_eq r w seen_jobs jobs El Eg). cbv zeta.
  rewrite upto_all. unfold world_after at 1. simpl.
  erewrite load_seen_jobs_array by reflexivity.
  by rewrite list_to_set_elements_L.
Qed.

Lemma gather_jobs_returns (r : remote) (w : World) :
  ∃ jobs, result (gather_jobs cfg svc r w) = Returns jobs.
Proof.
  destruct (gather_jobs_quiet r) as (jobs & ge & E & _).
  exists jobs. by rewrite E.
Qed.

(** ** The properties of the pass *)

(** C6. A listing whose url is in the seen set loaded at the start of
    the run is only logged as a duplicate: its turn of the loop asks for
    no completion (the Scorer is not called) and posts nothing (the
    Notifier is not called). *)
Theorem duplicate_is_skipped (r : remote) (w : World) (seen_jobs : gset string)
    (jobs : list Job) (i : nat) (job : Job) :
  result (load_seen_jobs w) = Returns seen_jobs →
  result (gather_jobs cfg svc r w) = Returns jobs →
  jobs !! i = Some job →
  url job ∈ seen_jobs →
  events (turn cfg svc seen_jobs jobs i w)
    = [Log INFO ("Skipped (duplicate): " +:+ title job)] ∧
  requested (events (turn cfg svc seen_jobs jobs i w)) = [] ∧
  posted (events (turn cfg svc seen_jobs jobs i w)) = [] ∧
  ∃ pre post,
    events (main cfg svc r w)
    = pre ++ events (turn cfg svc seen_jobs jobs i w) ++ post.
Proof.
  intros El Eg Ej Hin.
  split_and!; [..|apply (turn_in_main r w seen_jobs jobs i El Eg),
                         (lookup_lt_Some _ _ _ Ej)];
    rewrite (turn_job _ _ _ _ _ Ej), process_job_eq, decide_True by done; done.
Qed.

(** C1. A listing of the pass whose url is not in the seen set loaded at
    the start and which scores at least 7 is posted exactly once in its
    turn, and its url is in the seen set the run persists. *)
Theorem qualifying_listing_notified_once (r : remote) (w : World)
    (seen_jobs : gset string) (jobs : list Job) (i : nat) (job : Job) :
  result (load_seen_jobs w) = Returns seen_jobs →
  result (gather_jobs cfg svc r w) = Returns jobs →
  jobs !! i = Some job →
  url job ∉ seen_jobs →
  7 ≤ score_in_turn cfg svc seen_jobs jobs i w →
  (∃ explanation,
     posted (events (turn cfg svc seen_jobs jobs i w))
     = [slack_message job (score_in_turn cfg svc seen_jobs jobs i w) explanation]) ∧
  (∃ pre post,
     events (main cfg svc r w)
     = pre ++ events (turn cfg svc seen_jobs jobs i w) ++ post) ∧
  ∃ seen', result (load_seen_jobs (world_after (main cfg svc r w))) = Returns seen' ∧
           url job ∈ seen'.
Proof.
  intros El Eg Ej Hnew Hscore.
  pose proof (lookup_lt_Some _ _ _ Ej) as Hi.
  split_and!.
  - rewrite (turn_job _ _ _ _ _ Ej).
    destruct (process_job_summary seen_jobs job
                (returned ∅ (upto cfg svc seen_jobs jobs i w))
                (world_after (upto cfg svc seen_jobs jobs i w)))
      as (_ & P & _).
    rewrite <- (score_in_turn_job _ _ _ _ _ Ej) in P.
    rewrite decide_True in P by done. eauto.
  - by apply turn_in_main.
  - eexists. split; [by apply persisted_after_main|].
    apply upto_elem. right. by exists i, job.
Qed.

(** C8. The seen set a run persists contains the seen set it loaded. *)
Theorem seen_set_grows (r : remote) (w : World) (seen_jobs : gset string) :
  result (load_seen_jobs w) = Returns seen_jobs →
  ∃ seen', result (load_seen_jobs (world_after (main cfg svc r w))) = Returns seen' ∧
           seen_jobs ⊆ seen'.
Proof.
  intros El. destruct (gather_jobs_returns r w) as [jobs Eg].
  eexists. split; [by apply persisted_after_main|].
  intros u Hu. apply upto_elem. by left.
Qed.

(** C3, as the code has it. A listing of the pass that is scored below 7
    is not posted in its turn, and that turn adds nothing to the seen
    set: its url is in the persisted set exactly when some listing of
    the same pass with that url scored at least 7. *)
Theorem low_score_not_notified (r : remote) (w : World)
    (seen_jobs : gset string) (jobs : list Job) (i : nat) (job : Job) :
  result (load_seen_jobs w) = Returns seen_jobs →
  result (gather_jobs cfg svc r w) = Returns jobs →
  jobs !! i = Some job →
  url job ∉ seen_jobs →
  score_in_turn cfg svc seen_jobs jobs i w < 7 →
  posted (events (turn cfg svc seen_jobs jobs i w)) = [] ∧
  (∃ pre post,
     events (main cfg svc r w)
     = pre ++ events (turn cfg svc seen_jobs jobs i w) ++ post) ∧
  ∃ seen', result (load_seen_jobs (world_after (main cfg svc r w))) = Returns seen' ∧
           (url job ∈ seen' ↔
            ∃ k job', jobs !! k = Some job' ∧ url job' = url job ∧
                      7 ≤ score_in_turn cfg svc seen_jobs jobs k w).
Proof.
  intros El Eg Ej Hnew Hscore.
  pose proof (lookup_lt_Some _ _ _ Ej) as Hi.
  split_and!.
  - rewrite (turn_job _ _ _ _ _ Ej).
    destruct (process_job_summary seen_jobs job
                (returned ∅ (upto cfg svc seen_jobs jobs i w))
                (world_after (upto cfg svc seen_jobs jobs i w)))
      as (_ & P & _).
    rewrite <- (score_in_turn_job _ _ _ _ _ Ej) in P.
    rewrite decide_False in P by lia. done.
  - by apply turn_in_main.
  - eexists. split; [by apply persisted_after_main|].
    rewrite upto_elem. split.
    + intros [H|(k & job' & _ & Hk & Hu & _ & Hs)]; [done|].
      by exists k, job'.
    + intros (k & job' & Hk & Hu & Hs). right. exists k, job'.
      split_and!; try done.
      * by apply lookup_lt_Some in Hk.
      * by rewrite Hu.
Qed.

(** C10. The duplicate check looks only at the set loaded at the start:
    two listings of one pass that share a url outside that set are both
    sent to the Scorer, and when both score at least 7 both are posted,
    each in its own turn. *)
Theorem shared_url_scored_twice (r : remote) (w : World)
    (seen_jobs : gset string) (jobs : list Job) (i1 i2 : nat) (job1 job2 : Job) :
  result (load_seen_jobs w) = Returns seen_jobs →
  result (gather_jobs cfg svc r w) = Returns jobs →
  (i1 < i2)%nat →
  jobs !! i1 = Some job1 →
  jobs !! i2 = Some job2 →
  url job1 = url job2 →
  url job1 ∉ seen_jobs →
  requested (events (turn cfg svc seen_jobs jobs i1 w)) = [prompt_of job1] ∧
  requested (events (turn cfg svc seen_jobs jobs i2 w)) = [prompt_of job2] ∧
  (7 ≤ score_in_turn cfg svc seen_jobs jobs i1 w →
   7 ≤ score_in_turn cfg svc seen_jobs jobs i2 w →
   ∃ e1 e2,
     posted (events (turn cfg svc seen_jobs jobs i1 w))
     = [slack_message job1 (score_in_turn cfg svc seen_jobs jobs i1 w) e1] ∧
     posted (events (turn cfg svc seen_jobs jobs i2 w))
     = [slack_message job2 (score_in_turn cfg svc seen_jobs jobs i2 w) e2]) ∧
  ∃ pre mid post,
    events (main cfg svc r w)
    = pre ++ events (turn cfg svc seen_jobs jobs i1 w)
      ++ mid ++ events (turn cfg svc seen_jobs jobs i2 w) ++ post.
Proof.
  intros El Eg Hlt E1 E2 Hu Hnew.
  assert (Hnew2 : url job2 ∉ seen_jobs) by by rewrite <- Hu.
  pose proof (process_job_summary seen_jobs job1
                (returned ∅ (upto cfg svc seen_jobs jobs i1 w))
                (world_after (upto cfg svc seen_jobs jobs i1 w))) as S1.
  pose proof (process_job_summary seen_jobs job2
                (returned ∅ (upto cfg svc seen_jobs jobs i2 w))
                (world_after (upto cfg svc seen_jobs jobs i2 w))) as S2.
  cbv zeta in S1, S2.
  rewrite <- (turn_job _ _ _ _ _ E1), <- (score_in_turn_job _ _ _ _ _ E1) in S1.
  rewrite <- (turn_job _ _ _ _ _ E2), <- (score_in_turn_job _ _ _ _ _ E2) in S2.
  destruct S1 as (_ & P1 & Q1), S2 as (_ & P2 & Q2).
  rewrite decide_False in Q1 by done. rewrite decide_False in Q2 by done.
  split_and!; [done|done| |].
  - intros H1 H2. rewrite decide_True in P1 by done.
    rewrite decide_True in P2 by done. eauto.
  - rewrite (main_eq r w seen_jobs jobs El Eg). cbv zeta.
    rewrite events_triple, upto_all.
    apply lookup_lt_Some in E2.
    destruct (upto_events_prefix seen_jobs jobs (S i2) (length jobs) w)
      as [post Ep]; [lia|].
    destruct (upto_events_prefix seen_jobs jobs (S i1) i2 w)
      as [mid Em]; [lia|].
    rewrite Ep, upto_S, events_triple, Em, upto_S, events_triple.
    exists (events (gather_jobs cfg svc r w)
            ++ events (upto cfg svc seen_jobs jobs i1 w)), mid, post.
    by rewrite <- !app_assoc.
Qed.

(** A loop in which every listing is already seen, or cannot reach
    the threshold whatever the world, posts nothing. *)
Lemma silent_loop (seen_jobs : gset string) (jobs : list Job) :
  (∀ job, job ∈ jobs →
          url job ∈ seen_jobs ∨
          ∀ w, (returned (0, "") (score_job svc job w)).1 < 7) →
  ∀ new_seen w,
    posted (events (process_jobs cfg svc seen_jobs jobs new_seen w)) = [].
Proof.
  induction jobs as [|job jobs IH]; intros H new_seen w; [done|].
  simpl.
  destruct (process_job_returns seen_jobs job new_seen w) as (n1 & w1 & e1 & E).
  rewrite (bind_returns _ _ _ _ _ _ E), events_triple, posted_app.
  fold (events (process_jobs cfg svc seen_jobs jobs n1 w1)).
  rewrite IH by (intros j Hj; apply H; by right).
  destruct (process_job_summary seen_jobs job new_seen w) as (_ & P & _).
  rewrite E, events_triple in P. rewrite P, app_nil_r.
  rewrite decide_False; [done|]. intros [Hnew Hs].
  destruct (H job) as [?|Hlow]; [by left|done|].
  specialize (Hlow w). lia.
Qed.

Lemma score_job_deterministic (job : Job) (w w' : World) :
  (∀ k k' p, chat svc k p = chat svc k' p) →
  result (score_job svc job w) = result (score_job svc job w').
Proof.
  intros Hdet. rewrite !score_job_eq.
  rewrite (Hdet (completions w) (completions w')).
  by destruct (_ ≫= _).
Qed.

(** C4. With a scoring service that answers a prompt the same way every
    time and feeds that answer the same, a pass run right after a pass
    posts nothing. *)
Theorem second_pass_silent (r : remote) (w : World) :
  (∀ k k' p, chat svc k p = chat svc k' p) →
  posted (events (main cfg svc r (world_after (main cfg svc r w)))) = [].
Proof.
  intros Hdet.
  destruct (result (load_seen_jobs w)) as [seen_jobs|e] eqn:El.
  2: { rewrite (main_aborts r w e El). unfold world_after at 1. simpl.
       by rewrite (main_aborts r w e El). }
  destruct (gather_jobs_quiet r) as (jobs & ge & Eg & Pg & _).
  assert (Eg1 : result (gather_jobs cfg svc r w) = Returns jobs)
    by by rewrite Eg.
  pose proof (persisted_after_main r w seen_jobs jobs El Eg1) as El2.
  set (w2 := world_after (main cfg svc r w)) in *.
  set (seen2 := returned ∅ (upto cfg svc seen_jobs jobs (length jobs) w)) in *.
  assert (Eg2 : result (gather_jobs cfg svc r w2) = Returns jobs)
    by by rewrite Eg.
  rewrite (main_eq r w2 seen2 jobs El2 Eg2). cbv zeta.
  rewrite events_triple, posted_app, Eg, events_triple, Pg. simpl.
  apply silent_loop. intros job [k Hk]%list_elem_of_lookup.
  destruct (decide (url job ∈ seen2)) as [?|Hout]; [by left|right].
  intros w'.
  destruct (Z_lt_le_dec (returned (0, "") (score_job svc job w')).1 7)
    as [?|Hs]; [done|].
  exfalso. apply Hout. unfold seen2. apply upto_elem.
  destruct (decide (url job ∈ seen_jobs)) as [?|Hnew]; [by left|right].
  exists k, job. split_and!; try done.
  - by apply lookup_lt_Some in Hk.
  - rewrite (score_in_turn_job _ _ _ _ _ Hk). unfold returned.
    by rewrite (score_job_deterministic job _ w' Hdet).
Qed.

(** C7, as the code has it. [score_job] never raises. When the
    completion call fails it returns score 0 with the fixed fallback
    rationale; when the reply lacks the pattern it returns score 0 with
    the reply itself as the rationale. *)
Theorem score_job_never_raises (job : Job) (w : World) :
  (∃ score explanation,
     result (score_job svc job w) = Returns (score, explanation)) ∧
  (∀ e, chat svc (completions w) (prompt_of job) = Raises e →
        result (score_job svc job w) = Returns (0, scoring_fallback)) ∧
  (∀ content, chat svc (completions w) (prompt_of job) = Returns content →
              ¬ has_pattern content →
              result (score_job svc job w) = Returns (0, content)).
Proof.
  split_and!.
  - destruct (score_job_returns job w) as (sc & ex & E & _). eauto.
  - intros e E. by rewrite score_job_eq, E.
  - intros content E Hno. rewrite score_job_eq, E. simpl.
    by rewrite (extract_score_no_pattern content Hno).
Qed.

Lemma guard_guards (tag : string) (body : M (list Job)) :
  guards tag body
    (try_except body (fun e => logging_error (tag +:+ exc_text e);; ret [])).
Proof.
  intros w. rewrite guard_eq.
  destruct (body w) as [[[jobs|e] w1] evs]; (split; [by eauto|]);
    intros e' [= <-]; done.
Qed.

(** C9. Each of the three feeds always returns a list; when the request,
    the decoding or the reading of an entry raises, the feed logs the
    error and returns the empty list. *)
Theorem feeds_never_raise (r : remote) :
  guards "RemoteOK error: " (remoteok_body svc r) (fetch_remoteok_jobs svc r) ∧
  guards "YC error: " (ycombinator_body r) (fetch_ycombinator_jobs r) ∧
  guards "Google Jobs error: "
    (google_body cfg "data scientist" "remote" r) (fetch_google_jobs cfg r).
Proof. split_and!; apply guard_guards. Qed.

(** C2, as the code has it. [load_seen_jobs] returns the empty set when
    the cache file is absent; on a file that [json.load] rejects it
    raises the decoding error. *)
Theorem load_seen_jobs_absent_or_undecodable (w : World) :
  (cache_file w = Absent → load_seen_jobs w = (Returns ∅, w, [])) ∧
  (∀ err, cache_file w = Undecodable err →
          load_seen_jobs w = (Raises err, w, [])).
Proof.
  unfold load_seen_jobs, os_path_exists, json_load.
  split; [intros E|intros err E]; run; rewrite E; simpl; by rewrite ?E.
Qed.

End Proofs.


(** * The program on the sample configuration *)

Example extract_score_8 :
  extract_score ("Score: 8/10" +:+ nl +:+ "Reason: senior, remote") = Returns 8.
Proof. reflexivity. Qed.

Example extract_score_leftmost :
  extract_score "Score: /10 then Score:007/100 and Score: 9/10" = Returns 7.
Proof. reflexivity. Qed.

(** A no-break space after the colon and an Arabic-Indic seven. *)
Example extract_score_unicode :
  extract_score ("Score:" +:+ utf8_encode 0xA0 +:+ utf8_encode 0x667 +:+ "/10")
  = Returns 7.
Proof. vm_compute. reflexivity. Qed.

(** Beyond 4300 digits [int] raises, and [score_job] falls back. *)
Example extract_score_too_long :
  extract_score ("Score: " +:+ Nat.iter 4301 (String "1"%char) "/10")
  = Raises (ValueError_digits 4301).
Proof. vm_compute. reflexivity. Qed.

Example load_unhashable :
  load_seen_jobs
    {| cache_file := Unhashable (Exc "TypeError" "unhashable type: 'list'");
       completions := 0; posts := 0 |}
  = (Raises (Exc "TypeError" "unhashable type: 'list'"),
     {| cache_file := Unhashable (Exc "TypeError" "unhashable type: 'list'");
        completions := 0; posts := 0 |}, []).
Proof. reflexivity. Qed.

Example strip_unicode :
  strip (utf8_encode 0xA0 +:+ " Data Scientist " +:+ utf8_encode 0x3000)
  = "Data Scientist".
Proof. vm_compute. reflexivity. Qed.

Example gather_jobs_sample :
  gather_jobs Sample.cfg Sample.svc Sample.feeds Sample.fresh =
  (Returns Sample.listings, Sample.fresh,
   [HttpGet "https://remoteok.com/api" [];
    HttpGet "https://www.ycombinator.com/jobs" [];
    Log ERROR "YC error: Max retries exceeded";
    HttpGet "https://serpapi.com/search"
      [("engine", Some "google_jobs"); ("q", Some "data scientist remote");
       ("hl", Some "en"); ("api_key", Some "serp-key")]]).
Proof. reflexivity. Qed.

Example gather_jobs_broken :
  gather_jobs Sample.cfg Sample.svc Sample.broken_feeds Sample.fresh =
  (Returns [], Sample.fresh,
   [HttpGet "https://remoteok.com/api" [];
    Log ERROR "RemoteOK error: Expecting value";
    HttpGet "https://www.ycombinator.com/jobs" [];
    Log ERROR "YC error: 'NoneType' object has no attribute 'text'";
    HttpGet "https://serpapi.com/search"
      [("engine", Some "google_jobs"); ("q", Some "data scientist remote");
       ("hl", Some "en"); ("api_key", Some "serp-key")];
    Log ERROR "Google Jobs error: list index out of range"]).
Proof. reflexivity. Qed.

Example main_sample_cache :
  cache_file (world_after (main Sample.cfg Sample.svc Sample.feeds Sample.fresh))
  = JsonArray ["https://remoteok.com/remote-jobs/1"; ""].
Proof. vm_compute. reflexivity. Qed.

(** ** Instances of the properties *)

Lemma sample_loads_nothing :
  result (load_seen_jobs Sample.fresh) = Returns (∅ : gset string).
Proof. reflexivity. Qed.

Lemma sample_gathers :
  result (gather_jobs Sample.cfg Sample.svc Sample.feeds Sample.fresh)
  = Returns Sample.listings.
Proof. reflexivity. Qed.

(** [scientist], first in the sample pass, scores 8: it is posted once
    and its url is persisted. *)
Lemma qualifying_listing_notified_once_witness :
  (∃ explanation,
     posted (events (turn Sample.cfg Sample.svc ∅ Sample.listings 0 Sample.fresh))
     = [slack_message Sample.scientist
          (score_in_turn Sample.cfg Sample.svc ∅ Sample.listings 0 Sample.fresh)
          explanation]) ∧
  ∃ seen',
    result (load_seen_jobs
              (world_after (main Sample.cfg Sample.svc Sample.feeds Sample.fresh)))
    = Returns seen' ∧
    url Sample.scientist ∈ seen'.
Proof.
  destruct (qualifying_listing_notified_once Sample.cfg Sample.svc Sample.feeds
              Sample.fresh ∅ Sample.listings 0 Sample.scientist)
    as (H1 & _ & H2).
  - reflexivity.
  - reflexivity.
  - reflexivity.
  - apply not_elem_of_empty.
  - vm_compute. discriminate.
  - exact (conj H1 H2).
Defined.

(** With the url of [scientist] in the cache file, its turn is a single
    log line. *)
Lemma duplicate_is_skipped_witness :
  events (turn Sample.cfg Sample.svc
            (list_to_set ["https://remoteok.com/remote-jobs/1"])
            Sample.listings 0 Sample.visited)
  = [Log INFO "Skipped (duplicate): Senior Data Scientist"].
Proof.
  destruct (duplicate_is_skipped Sample.cfg Sample.svc Sample.feeds
              Sample.visited
              (list_to_set ["https://remoteok.com/remote-jobs/1"])
              Sample.listings 0 Sample.scientist)
    as (H & _).
  - reflexivity.
  - reflexivity.
  - reflexivity.
  - apply elem_of_list_to_set. left.
  - exact H.
Defined.

Lemma seen_set_grows_witness :
  ∃ seen',
    result (load_seen_jobs
              (world_after (main Sample.cfg Sample.svc Sample.feeds Sample.visited)))
    = Returns seen' ∧
    list_to_set ["https://remoteok.com/remote-jobs/1"] ⊆ seen'.
Proof.
  apply (seen_set_grows Sample.cfg Sample.svc Sample.feeds Sample.visited).
  reflexivity.
Defined.

(** [clerk], third in the sample pass, scores 3 and is not posted. *)
Lemma low_score_not_notified_witness :
  posted (events (turn Sample.cfg Sample.svc ∅ Sample.listings 2 Sample.fresh))
  = [].
Proof.
  destruct (low_score_not_notified Sample.cfg Sample.svc Sample.feeds
              Sample.fresh ∅ Sample.listings 2 Sample.clerk)
    as (H & _).
  - reflexivity.
  - reflexivity.
  - reflexivity.
  - apply not_elem_of_empty.
  - vm_compute. reflexivity.
  - exact H.
Defined.

(** [analyst] and [engineer] share the empty url; both are scored. *)
Lemma shared_url_scored_twice_witness :
  requested (events (turn Sample.cfg Sample.svc ∅ Sample.listings 1 Sample.fresh))
  = [prompt_of Sample.analyst] ∧
  requested (events (turn Sample.cfg Sample.svc ∅ Sample.listings 3 Sample.fresh))
  = [prompt_of Sample.engineer].
Proof.
  destruct (shared_url_scored_twice Sample.cfg Sample.svc Sample.feeds
              Sample.fresh ∅ Sample.listings 1 3 Sample.analyst Sample.engineer)
    as (H1 & H2 & _).
  - reflexivity.
  - reflexivity.
  - lia.
  - reflexivity.
  - reflexivity.
  - reflexivity.
  - apply not_elem_of_empty.
  - exact (conj H1 H2).
Defined.

Lemma second_pass_silent_witness :
  posted (events
    (main Sample.cfg Sample.svc Sample.feeds
       (world_after (main Sample.cfg Sample.svc Sample.feeds Sample.fresh))))
  = [].
Proof.
  apply (second_pass_silent Sample.cfg Sample.svc Sample.feeds Sample.fresh).
  intros k k' p. reflexivity.
Defined.

(** The service times out on [intern] and answers [staff] without a
    score. *)
Lemma score_job_never_raises_witness :
  result (score_job Sample.svc Sample.intern Sample.fresh)
  = Returns (0, scoring_fallback) ∧
  result (score_job Sample.svc Sample.staff Sample.fresh)
  = Returns (0, "I cannot rate this.").
Proof.
  split.
  - apply (score_job_never_raises Sample.svc Sample.intern Sample.fresh)
      with (e := Sample.timeout).
    reflexivity.
  - apply (score_job_never_raises Sample.svc Sample.staff Sample.fresh).
    + reflexivity.
    + rewrite has_pattern_search. vm_compute. intros H. by apply H.
Defined.

Lemma feeds_never_raise_witness :
  result (fetch_remoteok_jobs Sample.svc Sample.broken_feeds Sample.fresh)
  = Returns [] ∧
  result (fetch_ycombinator_jobs Sample.broken_feeds Sample.fresh)
  = Returns [] ∧
  result (fetch_google_jobs Sample.cfg Sample.broken_feeds Sample.fresh)
  = Returns [].
Proof.
  destruct (feeds_never_raise Sample.cfg Sample.svc Sample.broken_feeds)
    as (H1 & H2 & H3).
  split_and!.
  - apply (H1 Sample.fresh) with (e := Exc "JSONDecodeError" "Expecting value").
    reflexivity.
  - apply (H2 Sample.fresh) with (e := AttributeError "text"). reflexivity.
  - apply (H3 Sample.fresh) with (e := IndexError). reflexivity.
Defined.

Lemma load_seen_jobs_absent_or_undecodable_witness :
  load_seen_jobs Sample.fresh = (Returns ∅, Sample.fresh, []) ∧
  load_seen_jobs Sample.corrupt
  = (Raises Sample.decode_error, Sample.corrupt, []).
Proof.
  split.
  - apply (load_seen_jobs_absent_or_undecodable Sample.fresh). reflexivity.
  - apply (load_seen_jobs_absent_or_undecodable Sample.corrupt). reflexivity.
Defined.


(** ** Where the specification and the program part *)

(** C2. A cache file that is not JSON makes [load_seen_jobs] raise, and
    the pass with it, before any feed is read. *)
Lemma load_seen_jobs_raises_on_malformed :
  result (load_seen_jobs Sample.corrupt) = Raises Sample.decode_error ∧
  result (load_seen_jobs Sample.corrupt) ≠ Returns ∅ ∧
  main Sample.cfg Sample.svc Sample.feeds Sample.corrupt
  = (Raises Sample.decode_error, Sample.corrupt, []).
Proof. split_and!; done. Qed.

(** C3. [clerk] scores 3 in the sample pass, its url is not in the set
    loaded at the start, and yet its url is in the persisted set:
    [analyst], which has the same url, scored 8. *)
Lemma low_score_url_persisted :
  result (load_seen_jobs Sample.fresh) = Returns ∅ ∧
  result (gather_jobs Sample.cfg Sample.svc Sample.feeds Sample.fresh)
  = Returns Sample.listings ∧
  Sample.listings !! 2%nat = Some Sample.clerk ∧
  score_in_turn Sample.cfg Sample.svc ∅ Sample.listings 2 Sample.fresh = 3 ∧
  ∃ seen',
    result (load_seen_jobs
              (world_after (main Sample.cfg Sample.svc Sample.feeds Sample.fresh)))
    = Returns seen' ∧
    url Sample.clerk ∈ seen'.
Proof.
  split_and!; [reflexivity..| by vm_compute |].
  assert (E : cache_file (world_after
                (main Sample.cfg Sample.svc Sample.feeds Sample.fresh))
              = JsonArray ["https://remoteok.com/remote-jobs/1"; ""])
    by (vm_compute; reflexivity).
  exists (list_to_set ["https://remoteok.com/remote-jobs/1"; ""]). split.
  - by apply load_seen_jobs_array.
  - apply elem_of_list_to_set. right. left.
Qed.


(** C7. A reply without the pattern comes back as the rationale; it is
    not replaced by the fallback text. *)
Lemma score_job_keeps_reply :
  chat Sample.svc (completions Sample.fresh) (prompt_of Sample.staff)
  = Returns "I cannot rate this." ∧
  ¬ has_pattern "I cannot rate this." ∧
  result (score_job Sample.svc Sample.staff Sample.fresh)
  = Returns (0, "I cannot rate this.") ∧
  result (score_job Sample.svc Sample.staff Sample.fresh)
  ≠ Returns (0, scoring_fallback).
Proof.
  split_and!; [reflexivity| |reflexivity|by vm_compute].
  rewrite has_pattern_search. vm_compute. intros H. by apply H.
Qed.

(** * Further properties of the program *)

(** ** Text *)

Lemma app_assoc_string (a b c : string) : (a +:+ b) +:+ c = a +:+ (b +:+ c).
Proof.
  induction a as [|x a IH]; [done|]. rewrite !app_cons. by f_equal.
Qed.

Lemma chars_nil (r : string) : chars r = [] → r = "".
Proof.
  destruct r as [|b r]; [done|]. simpl.
  destruct (chars r); [done|]. by destruct (continues r).
Qed.

Lemma chars_cons (b : ascii) (r : string) :
  continues r = false → chars (String b r) = String b "" :: chars r.
Proof.
  intros H. simpl. destruct (chars r) as [|c cs] eqn:E; [done|].
  by rewrite H.
Qed.

Lemma ascii_text_continues (a r : string) :
  ascii_text a = true → continues r = false → continues (a +:+ r) = false.
Proof.
  destruct a as [|b a]; [done|]. simpl. intros [Hb _]%andb_true_iff _.
  unfold is_continuation. apply Nat.ltb_lt in Hb.
  apply andb_false_iff. left. apply Nat.leb_gt. lia.
Qed.

(** In front of a character, a run of ASCII bytes is as many characters. *)
Lemma chars_ascii_app (a r : string) :
  ascii_text a = true → continues r = false →
  chars (a +:+ r) = singles a ++ chars r.
Proof.
  intros Ha Hr. induction a as [|b a IH]; [done|].
  simpl in Ha. apply andb_true_iff in Ha as [Hb Ha].
  rewrite app_cons, chars_cons by by apply ascii_text_continues.
  unfold singles. simpl. f_equal. by apply IH.
Qed.

Lemma singles_app (a b : string) : singles (a +:+ b) = singles a ++ singles b.
Proof.
  unfold singles. induction a as [|x a IH]; [done|].
  rewrite app_cons. simpl. by f_equal.
Qed.

Lemma singles_length (a : string) : length (singles a) = String.length a.
Proof.
  unfold singles. induction a as [|x a IH]; [done|]. simpl. by f_equal.
Qed.

Lemma digits_value_app (a b : list string) (acc : Z) :
  digits_value acc (a ++ b) = digits_value (digits_value acc a) b.
Proof.
  revert acc. induction a as [|x a IH]; intros acc; [done|]. simpl. apply IH.
Qed.

Lemma pretty_N_char_digit (d : N) :
  (d < 10)%N →
  ascii_text (String (pretty_N_char d) "") = true ∧
  decimal_value (String (pretty_N_char d) "") = Some (Z.of_N d).
Proof.
  intros Hd.
  assert (d = 0 ∨ d = 1 ∨ d = 2 ∨ d = 3 ∨ d = 4 ∨ d = 5 ∨ d = 6 ∨ d = 7
          ∨ d = 8 ∨ d = 9)%N as H by lia.
  repeat (destruct H as [->|H]; [by vm_compute|]). subst. by vm_compute.
Qed.

Lemma ascii_text_app (a b : string) :
  ascii_text (a +:+ b) = ascii_text a && ascii_text b.
Proof.
  induction a as [|x a IH]; [done|]. rewrite app_cons. simpl.
  by rewrite IH, andb_assoc.
Qed.

(** The digits [pretty] prints for a number are ASCII digits that read
    back to that number. *)
Lemma pretty_N_go_digits (x : N) (s : string) :
  ∃ p, pretty_N_go x s = p +:+ s ∧ ascii_text p = true ∧
       forallb is_digit (singles p) = true ∧
       digits_value 0 (singles p) = Z.of_N x ∧ ((0 < x)%N → p ≠ "").
Proof.
  revert s. induction (N.lt_wf_0 x) as [x _ IH]; intros s.
  destruct (decide (0 < x)%N) as [Hx|Hx].
  - rewrite pretty_N_go_step by done.
    destruct (IH (x `div` 10)%N) with (s := String (pretty_N_char (x `mod` 10)) s)
      as (p & -> & Ha & Hp & Hv & _).
    { apply N.div_lt; lia. }
    destruct (pretty_N_char_digit (x `mod` 10)%N) as [Hd Hdv].
    { apply N.mod_lt. lia. }
    exists (p +:+ String (pretty_N_char (x `mod` 10)) "").
    split_and!.
    + by rewrite app_assoc_string.
    + by rewrite ascii_text_app, Ha, Hd.
    + rewrite singles_app, forallb_app, Hp. unfold singles. simpl.
      unfold is_digit. by rewrite Hdv.
    + rewrite singles_app, digits_value_app, Hv. unfold singles. simpl.
      rewrite Hdv. simpl. pose proof (N.div_mod x 10). lia.
    + intros _. by destruct p.
  - assert (x = 0%N) as -> by lia. exists "". rewrite pretty_N_go_0.
    split_and!; [done..|lia].
Qed.

Lemma pretty_Z_digits (n : Z) :
  0 ≤ n →
  ascii_text (pretty n) = true ∧
  forallb is_digit (singles (pretty n)) = true ∧
  digits_value 0 (singles (pretty n)) = n ∧
  pretty n ≠ "".
Proof.
  intros Hn. destruct n as [|q|q]; [by vm_compute| |lia].
  unfold pretty, pretty_Z, pretty, pretty_positive, pretty, pretty_N.
  rewrite decide_False by done.
  destruct (pretty_N_go_digits (N.pos q) "") as (p & -> & Ha & Hp & Hv & Hne).
  assert (p +:+ "" = p) as ->.
  { clear. induction p as [|x p IH]; [done|]. rewrite app_cons. by f_equal. }
  split_and!; [done..|]. by apply Hne.
Qed.

(** X1. A reply in the format the prompt asks for is read back: for a
    score [n] that is not negative and has at most 4300 digits, whatever
    text follows [/10]. *)
Theorem extract_score_of_reply (n : Z) (rest : string) :
  0 ≤ n →
  (String.length (pretty n) ≤ 4300)%nat →
  continues rest = false →
  extract_score ("Score: " +:+ pretty n +:+ "/10" +:+ rest) = Returns n.
Proof.
  intros Hn Hlen Hrest. destruct (pretty_Z_digits n Hn) as (Ha & Hd & Hv & Hne).
  unfold extract_score.
  assert (C3 : continues ("/10" +:+ rest) = false)
    by by apply ascii_text_continues.
  assert (C2 : continues (pretty n +:+ "/10" +:+ rest) = false)
    by by apply ascii_text_continues.
  rewrite (chars_ascii_app "Score: ") by done.
  rewrite (chars_ascii_app (pretty n)) by done.
  rewrite (chars_ascii_app "/10") by done.
  change (singles "Score: ") with (chars "Score:" ++ [" "]).
  change (singles "/10") with (chars "/10").
  rewrite <- app_assoc.
  assert (Hm : matches_front
                 (chars "Score:" ++ [" "] ++ singles (pretty n)
                  ++ chars "/10" ++ chars rest) (singles (pretty n))).
  { exists [" "], (chars rest). split_and!; [done..|].
    by destruct (pretty n). }
  rewrite re_search_eq, (match_here_complete _ _ Hm).
  unfold py_int. rewrite singles_length, decide_True by done. by rewrite Hv.
Qed.

(** ** Comprehensions *)

Lemma comprehension_Forall {A B} (cond : A -> outcome bool)
    (elt : A -> outcome B) (l : list A) (ys : list B) :
  comprehension cond elt l = Returns ys →
  Forall (fun y => ∃ x, x ∈ l ∧ cond x = Returns true ∧ elt x = Returns y) ys.
Proof.
  revert ys. induction l as [|x l IH]; intros ys; simpl.
  - intros [= <-]. constructor.
  - destruct (cond x) as [[|]|e] eqn:C; simpl; [| |done].
    + destruct (elt x) as [y|e] eqn:E; simpl; [|done].
      destruct (comprehension cond elt l) as [ys'|e]; simpl; [|done].
      intros [= <-]. constructor.
      * exists x. split_and!; [left|done..].
      * eapply Forall_impl; [by apply IH|].
        intros y' (x' & ? & ?). exists x'. split; [by right|done].
    + intros H. eapply Forall_impl; [by apply IH|].
      intros y' (x' & ? & ?). exists x'. split; [by right|done].
Qed.

Lemma comprehension_length {A B} (cond : A -> outcome bool)
    (elt : A -> outcome B) (l : list A) (ys : list B) :
  comprehension cond elt l = Returns ys → (length ys ≤ length l)%nat.
Proof.
  revert ys. induction l as [|x l IH]; intros ys; simpl.
  - by intros [= <-].
  - destruct (cond x) as [[|]|e]; simpl; [| |done].
    + destruct (elt x) as [y|e]; simpl; [|done].
      destruct (comprehension cond elt l) as [ys'|e]; simpl; [|done].
      intros [= <-]. simpl. specialize (IH ys' eq_refl). lia.
    + intros H. specialize (IH ys H). lia.
Qed.

(** An element on which the condition raises ends the comprehension
    with an exception, its own or an earlier one. *)
Lemma comprehension_cond_raises {A B} (cond : A -> outcome bool)
    (elt : A -> outcome B) (l : list A) (x : A) (e : exn) :
  x ∈ l → cond x = Raises e → ∃ e', comprehension cond elt l = Raises e'.
Proof.
  intros Hx Hc. induction l as [|x' l IH]; [by apply elem_of_nil in Hx|].
  simpl. destruct (cond x') as [[|]|e1] eqn:C; simpl; [| |by eauto].
  - destruct (elt x') as [y|e1]; simpl; [|by eauto].
    apply elem_of_cons in Hx as [->|Hx]; [congruence|].
    destruct (IH Hx) as [e' ->]. simpl. eauto.
  - apply elem_of_cons in Hx as [->|Hx]; [congruence|]. by apply IH.
Qed.

(** Likewise for an element that passes the condition and whose value
    raises. *)
Lemma comprehension_elt_raises {A B} (cond : A -> outcome bool)
    (elt : A -> outcome B) (l : list A) (x : A) (e : exn) :
  x ∈ l → cond x = Returns true → elt x = Raises e →
  ∃ e', comprehension cond elt l = Raises e'.
Proof.
  intros Hx Hc He. induction l as [|x' l IH]; [by apply elem_of_nil in Hx|].
  simpl. destruct (cond x') as [[|]|e1] eqn:C; simpl; [| |by eauto].
  - destruct (elt x') as [y|e1] eqn:E; simpl; [|by eauto].
    apply elem_of_cons in Hx as [->|Hx]; [congruence|].
    destruct (IH Hx) as [e' ->]. simpl. eauto.
  - apply elem_of_cons in Hx as [->|Hx]; [congruence|]. by apply IH.
Qed.

(** Without a condition, the comprehension keeps every element, in order. *)
Lemma comprehension_all {A B} (elt : A -> outcome B) (l : list A) (ys : list B) :
  comprehension (fun _ => Returns true) elt l = Returns ys →
  Forall2 (fun x y => elt x = Returns y) l ys.
Proof.
  revert ys. induction l as [|x l IH]; intros ys; simpl.
  - intros [= <-]. constructor.
  - destruct (elt x) as [y|e] eqn:E; simpl; [|done].
    destruct (comprehension _ elt l) as [ys'|e]; simpl; [|done].
    intros [= <-]. constructor; [done|by apply IH].
Qed.

Lemma take_chars_length (n : nat) (s : string) :
  (char_length (take_chars n s) ≤ n)%nat.
Proof.
  revert n. induction s as [|b s IH]; intros n; simpl; [lia|].
  destruct (is_continuation b) eqn:E; simpl.
  - rewrite E. apply IH.
  - destruct n as [|n]; simpl; [lia|]. rewrite E. specialize (IH n). lia.
Qed.

Local Arguments take_chars : simpl never.

Lemma contains_empty (needle : string) :
  needle ≠ "" → contains needle "" = false.
Proof. by destruct needle. Qed.

Lemma load_seen_jobs_cases (w : World) :
  (cache_file w = Absent → load_seen_jobs w = (Returns ∅, w, [])) ∧
  (∀ err, cache_file w = Undecodable err →
          load_seen_jobs w = (Raises err, w, [])).
Proof.
  unfold load_seen_jobs, os_path_exists, json_load.
  split; [intros E|intros err E]; run; rewrite E; simpl; by rewrite ?E.
Qed.

Section More.

Context (cfg : config) (svc : services).

(** ** Seen-set store *)

(** X2. What [save_seen_jobs] writes, [load_seen_jobs] reads back: after
    saving a set, loading returns that set, whatever the file held
    before. *)
Theorem load_after_save (seen : gset string) (w : World) :
  result (load_seen_jobs (world_after (save_seen_jobs seen w))) = Returns seen.
Proof.
  erewrite load_seen_jobs_array by reflexivity.
  by rewrite list_to_set_elements_L.
Qed.

(** ** Job feeds *)

(** X3. Every listing [fetch_remoteok_jobs] returns comes from an entry
    after the first of the reply: its title is the position of that
    entry and contains [data] in lower case, its description has at
    most 1000 characters, and its url is the site followed by the url of
    the entry ([None] when the entry has none). *)
Theorem remoteok_listings (r : remote) (w : World) (reply : list remoteok_entry)
    (jobs : list Job) (job : Job) :
  remoteok_api r = Returns reply →
  result (fetch_remoteok_jobs svc r w) = Returns jobs →
  job ∈ jobs →
  ∃ entry, entry ∈ tail reply ∧
    ro_position entry = Some (title job) ∧
    contains "data" (lower (title job)) = true ∧
    (char_length (description job) ≤ 1000)%nat ∧
    url job = "https://remoteok.com" +:+ format_value (ro_url entry).
Proof.
  intros Er. unfold fetch_remoteok_jobs. rewrite guard_eq.
  unfold remoteok_body. run. rewrite Er. simpl.
  destruct (comprehension _ _ (tail reply)) as [ys|e] eqn:C; simpl.
  2: { intros [= <-] H. by apply elem_of_nil in H. }
  intros [= <-] Hj.
  apply comprehension_Forall in C.
  rewrite Forall_forall in C. destruct (C job Hj) as (entry & Hin & Hc & He).
  exists entry. injection Hc as Hc.
  unfold clean_html in He.
  destruct (get_text svc _) as [text|e]; simpl in He; [|done].
  injection He as <-. simpl.
  destruct (ro_position entry) as [pos|]; simpl in *; [|done].
  split_and!; try done. apply take_chars_length.
Qed.

(** X4. [fetch_remoteok_jobs] never returns more listings than the reply
    has entries after its first one; a reply of at most one entry gives
    none. *)
Theorem remoteok_skips_first (r : remote) (w : World)
    (reply : list remoteok_entry) (jobs : list Job) :
  remoteok_api r = Returns reply →
  result (fetch_remoteok_jobs svc r w) = Returns jobs →
  (length jobs ≤ length reply - 1)%nat.
Proof.
  intros Er. unfold fetch_remoteok_jobs. rewrite guard_eq.
  unfold remoteok_body. run. rewrite Er. simpl.
  destruct (comprehension _ _ (tail reply)) as [ys|e] eqn:C; simpl.
  2: { intros [= <-]. simpl. lia. }
  intros [= <-]. apply comprehension_length in C.
  destruct reply; simpl in *; lia.
Qed.

(** X5. Every listing [fetch_ycombinator_jobs] returns comes from a
    selected element with an [h2] and an [href]: the text of the [h2]
    contains [data] and not [intern] in lower case, the title is that
    text stripped, the description is the stripped text of the [p] (empty
    without a [p]), and the url is the site followed by the [href]. *)
Theorem ycombinator_listings (r : remote) (w : World) (cards : list job_preview)
    (jobs : list Job) (job : Job) :
  ycombinator_page r = Returns cards →
  result (fetch_ycombinator_jobs r w) = Returns jobs →
  job ∈ jobs →
  ∃ jc t h, jc ∈ cards ∧ jp_h2 jc = Some t ∧ jp_href jc = Some h ∧
    contains "data" (lower t) = true ∧
    contains "intern" (lower t) = false ∧
    title job = strip t ∧
    description job = match jp_p jc with Some p => strip p | None => "" end ∧
    url job = "https://www.ycombinator.com" +:+ h.
Proof.
  intros Er. unfold fetch_ycombinator_jobs. rewrite guard_eq.
  unfold ycombinator_body. run. rewrite Er. simpl.
  destruct (comprehension _ _ cards) as [ys|e] eqn:C; simpl.
  2: { intros [= <-] H. by apply elem_of_nil in H. }
  intros [= <-] Hj.
  apply comprehension_Forall in C.
  rewrite Forall_forall in C. destruct (C job Hj) as (jc & Hin & Hc & He).
  unfold h2_text in *.
  destruct (jp_h2 jc) as [t|] eqn:Eh; simpl in *; [|done].
  destruct (jp_href jc) as [h|] eqn:Ef; simpl in *; [|done].
  injection He as <-. exists jc, t, h.
  destruct (contains "data" (lower t)); [|done].
  injection Hc as Hc. apply negb_true_iff in Hc.
  split_and!; done.
Qed.

(** X6. One selected element without an [h2] costs the whole feed: the
    Y Combinator feed then returns no listing at all, whatever the other
    elements are. *)
Theorem ycombinator_one_bad_card (r : remote) (w : World)
    (cards : list job_preview) (jc : job_preview) :
  ycombinator_page r = Returns cards →
  jc ∈ cards →
  jp_h2 jc = None →
  result (fetch_ycombinator_jobs r w) = Returns [].
Proof.
  intros Er Hin Hh. unfold fetch_ycombinator_jobs. rewrite guard_eq.
  unfold ycombinator_body. run. rewrite Er. simpl.
  match goal with
  | |- context [comprehension ?c ?e cards] =>
      destruct (comprehension_cond_raises c e cards jc (AttributeError "text") Hin)
        as [e' ->]
  end; [|done].
  unfold h2_text. by rewrite Hh.
Qed.

(** X7. [fetch_google_jobs] keeps all results or none: when SerpAPI
    answers with results, the feed returns either no listing, or one
    listing per result, in order, with the title and the description of
    the result and its first link as url (the empty text for a result
    without [related_links] or whose first link has no [link]). *)
Theorem google_all_or_nothing (r : remote) (w : World)
    (results : list google_job) (jobs : list Job) :
  serpapi_search r = Returns (Some results) →
  result (fetch_google_jobs cfg r w) = Returns jobs →
  jobs = [] ∨
  Forall2 (fun g job =>
             gj_title g = Some (title job) ∧
             gj_description g = Some (description job) ∧
             first_link g = Some (url job)) results jobs.
Proof.
  intros Er. unfold fetch_google_jobs. rewrite guard_eq.
  unfold google_body. run. rewrite Er. simpl.
  destruct (comprehension _ _ results) as [ys|e] eqn:C; simpl.
  2: { intros [= <-]. by left. }
  intros [= <-]. right.
  apply comprehension_all in C.
  eapply Forall2_impl; [exact C|]. clear. intros g job H. simpl in H.
  unfold subscript, first_link in *.
  destruct (gj_title g) as [t|]; simpl in H; [|done].
  destruct (gj_description g) as [d|]; simpl in H; [|done].
  destruct (gj_related_links g) as [[|l ls]|]; simpl in H; try done;
    by injection H as <-.
Qed.

(** X8. One result without a title, without a description, or with an
    empty list of related links costs the whole feed: the Google feed
    then returns no listing at all. *)
Theorem google_one_bad_result (r : remote) (w : World)
    (results : list google_job) (g : google_job) :
  serpapi_search r = Returns (Some results) →
  g ∈ results →
  gj_title g = None ∨ gj_description g = None ∨ gj_related_links g = Some [] →
  result (fetch_google_jobs cfg r w) = Returns [].
Proof.
  intros Er Hin Hbad. unfold fetch_google_jobs. rewrite guard_eq.
  unfold google_body. run. rewrite Er. simpl.
  match goal with
  | |- context [comprehension ?c ?e results] =>
      assert (∃ e0, e g = Raises e0) as [e0 He];
      [|destruct (comprehension_elt_raises c e results g e0 Hin eq_refl He)
          as [e' ->]; done]
  end.
  unfold subscript. simpl.
  destruct (gj_title g) as [t|]; simpl; [|by eauto].
  destruct (gj_description g) as [d|]; simpl; [|by eauto].
  destruct Hbad as [?|[?|Hl]]; [done..|]. rewrite Hl. simpl. eauto.
Qed.

(** ** Combine all feeds *)

(** X9. [gather_jobs] never raises and leaves the cache file alone; its
    result is what the three feeds return, RemoteOK first, then
    Y Combinator, then Google, so a feed that fails takes nothing from
    the others. *)
Theorem gather_jobs_concat (r : remote) (w : World) :
  result (gather_jobs cfg svc r w)
  = Returns (returned [] (fetch_remoteok_jobs svc r w)
             ++ returned [] (fetch_ycombinator_jobs r w)
             ++ returned [] (fetch_google_jobs cfg r w)) ∧
  world_after (gather_jobs cfg svc r w) = w ∧
  posted (events (gather_jobs cfg svc r w)) = [] ∧
  requested (events (gather_jobs cfg svc r w)) = [].
Proof.
  destruct (fetch_remoteok_jobs_quiet svc r) as (a & ea & Ea & Pa & Qa).
  destruct (fetch_ycombinator_jobs_quiet r) as (b & eb & Eb & Pb & Qb).
  destruct (fetch_google_jobs_quiet cfg r) as (c & ec & Ec & Pc & Qc).
  unfold gather_jobs.
  rewrite (bind_returns _ _ _ _ _ _ (Ea w)).
  rewrite (bind_returns _ _ _ _ _ _ (Eb w)).
  rewrite (bind_returns _ _ _ _ _ _ (Ec w)).
  rewrite Ea, Eb, Ec. unfold mret, M_ret, ret, returned, result, world_after, events.
  simpl. rewrite !posted_app, !requested_app, Pa, Pb, Pc, Qa, Qb, Qc. done.
Qed.

(** ** Scoring *)

(** X10. A score other than 0 can only come from a reply that carries
    the pattern, and the rationale is then that reply: a failed call
    and a reply without a score both give 0. *)
Theorem score_job_nonzero (job : Job) (w : World) (score : Z)
    (explanation : string) :
  result (score_job svc job w) = Returns (score, explanation) →
  score ≠ 0 →
  chat svc (completions w) (prompt_of job) = Returns explanation ∧
  has_pattern explanation ∧ 0 < score.
Proof.
  rewrite score_job_eq.
  destruct (chat svc _ _) as [content|e]; unfold result; simpl; [|congruence].
  destruct (extract_score content) as [n|e] eqn:E; simpl; [|congruence].
  intros [= <- <-] Hs.
  destruct (extract_score_Returns content n E) as [Hn Hp].
  split_and!; [done|by apply Hp|lia].
Qed.

(** ** Main job runner *)

Lemma slept_app (a b : list event) : slept (a ++ b) = (slept a + slept b)%nat.
Proof. unfold slept. by rewrite omap_app, sum_list_with_app. Qed.

Lemma process_job_sleep (seen_jobs : gset string) (job : Job)
    (new_seen : gset string) (w : World) :
  slept (events (process_job cfg svc seen_jobs job new_seen w))
  = if decide (url job ∈ seen_jobs) then 0%nat else 2%nat.
Proof.
  rewrite process_job_eq. cbv zeta.
  destruct (decide (url job ∈ seen_jobs)); [done|].
  rewrite score_job_eq, send_to_slack_eq.
  destruct (_ ≫= _) as [[score content]|e]; unfold returned, result, events;
    simpl; try case_decide; unfold slept; simpl; try done;
    rewrite omap_app; by destruct (webhook svc _ _).
Qed.

Lemma loop_requests (seen_jobs : gset string) (jobs : list Job)
    (new_seen : gset string) (w : World) :
  requested (events (process_jobs cfg svc seen_jobs jobs new_seen w))
  = prompt_of <$> filter (fun job => url job ∉ seen_jobs) jobs ∧
  slept (events (process_jobs cfg svc seen_jobs jobs new_seen w))
  = (2 * length (filter (fun job => url job ∉ seen_jobs) jobs))%nat.
Proof.
  revert new_seen w. induction jobs as [|job jobs IH]; intros new_seen w; [done|].
  simpl.
  destruct (process_job_returns cfg svc seen_jobs job new_seen w)
    as (n1 & w1 & e1 & E).
  rewrite (bind_returns _ _ _ _ _ _ E), events_triple, requested_app, slept_app.
  fold (events (process_jobs cfg svc seen_jobs jobs n1 w1)).
  destruct (IH n1 w1) as [-> ->].
  destruct (process_job_summary cfg svc seen_jobs job new_seen w) as (_ & _ & Q).
  pose proof (process_job_sleep seen_jobs job new_seen w) as Z.
  rewrite E, events_triple in Q, Z. rewrite Q, Z, filter_cons.
  destruct (decide (url job ∈ seen_jobs)) as [Hin|Hin].
  - rewrite decide_False by (intros H; by apply H). done.
  - rewrite decide_True by done. simpl. split; [done|lia].
Qed.

Lemma guarded_get_no_sleep (tag target : string)
    (params : list (string * option string))
    (body : M (list Job)) (o : outcome (list Job)) (w : World) :
  body w = (o, w, [HttpGet target params]) →
  ∃ jobs evs,
    try_except body (fun e => logging_error (tag +:+ exc_text e);; ret []) w
    = (Returns jobs, w, evs) ∧ slept evs = 0%nat.
Proof.
  intros E. rewrite guard_eq, E. destruct o; eauto.
Qed.

Lemma gather_no_sleep (r : remote) (w : World) :
  slept (events (gather_jobs cfg svc r w)) = 0%nat.
Proof.
  destruct (remoteok_body_eq svc r) as [oa Ba].
  destruct (ycombinator_body_eq r) as [ob Bb].
  destruct (google_body_eq cfg "data scientist" "remote" r) as (oc & g & Bc).
  assert (Hg : ∃ params, g = HttpGet "https://serpapi.com/search" params).
  { destruct (Bc w) as [E _]. revert E. unfold google_body. run.
    destruct (serpapi_search r); simpl; [destruct (comprehension _ _ _)|];
      intros [= _ <-]; eauto. }
  destruct Hg as [params ->]. destruct (Bc w) as [Bc' _].
  destruct (guarded_get_no_sleep "RemoteOK error: " _ _ _ _ w (Ba w))
    as (a & ea & Ea & Za).
  destruct (guarded_get_no_sleep "YC error: " _ _ _ _ w (Bb w))
    as (b & eb & Eb & Zb).
  destruct (guarded_get_no_sleep "Google Jobs error: " _ _ _ _ w Bc')
    as (c & ec & Ec & Zc).
  unfold gather_jobs.
  rewrite (bind_returns _ _ _ _ _ _ Ea).
  rewrite (bind_returns _ _ _ _ _ _ Eb).
  rewrite (bind_returns _ _ _ _ _ _ Ec).
  unfold mret, M_ret, ret, events. simpl.
  rewrite !slept_app, Za, Zb, Zc. done.
Qed.

(** X11. A pass asks for one completion per listing whose url is not in
    the set loaded at the start, in the order of the listings, and
    sleeps 2 seconds after each of them; listings skipped as duplicates
    cost neither. *)
Theorem one_request_per_unseen (r : remote) (w : World)
    (seen_jobs : gset string) (jobs : list Job) :
  result (load_seen_jobs w) = Returns seen_jobs →
  result (gather_jobs cfg svc r w) = Returns jobs →
  requested (events (main cfg svc r w))
  = prompt_of <$> filter (fun job => url job ∉ seen_jobs) jobs ∧
  slept (events (main cfg svc r w))
  = (2 * length (filter (fun job => url job ∉ seen_jobs) jobs))%nat.
Proof.
  intros El Eg. rewrite (main_eq cfg svc r w seen_jobs jobs El Eg). cbv zeta.
  rewrite events_triple, requested_app, slept_app.
  destruct (loop_requests seen_jobs jobs seen_jobs w) as [-> ->].
  destruct (gather_jobs_quiet cfg svc r) as (jobs' & ge & Eg' & _ & Qg).
  rewrite Eg', events_triple, Qg. split; [done|].
  pose proof (gather_no_sleep r w) as Z.
  rewrite Eg', events_triple in Z. by rewrite Z.
Qed.

Lemma turn_posts (seen_jobs : gset string) (jobs : list Job) (i : nat)
    (w : World) :
  posted (events (turn cfg svc seen_jobs jobs i w))
  = notification cfg svc seen_jobs jobs i w.
Proof.
  unfold notification. destruct (jobs !! i) as [job|] eqn:E.
  - rewrite (turn_job cfg svc _ _ _ _ _ E).
    by destruct (process_job_summary cfg svc seen_jobs job
                   (returned ∅ (upto cfg svc seen_jobs jobs i w))
                   (world_after (upto cfg svc seen_jobs jobs i w)))
      as (_ & -> & _).
  - unfold turn. by rewrite E.
Qed.

Lemma upto_posts (seen_jobs : gset string) (jobs : list Job) (n : nat)
    (w : World) :
  posted (events (upto cfg svc seen_jobs jobs n w))
  = concat (map (fun i => notification cfg svc seen_jobs jobs i w) (seq 0 n)).
Proof.
  induction n as [|n IH].
  - by rewrite upto_0.
  - rewrite upto_S, events_triple, posted_app, IH, turn_posts.
    rewrite seq_S, map_app, concat_app. simpl. by rewrite app_nil_r.
Qed.

(** X12. The messages a pass posts are, turn by turn and in the order
    of the listings, the message of each listing whose url is not in the
    set loaded at the start and whose score reaches 7: nothing else is
    ever posted. *)
Theorem posts_of_pass (r : remote) (w : World)
    (seen_jobs : gset string) (jobs : list Job) :
  result (load_seen_jobs w) = Returns seen_jobs →
  result (gather_jobs cfg svc r w) = Returns jobs →
  posted (events (main cfg svc r w))
  = concat (map (fun i => notification cfg svc seen_jobs jobs i w)
                (seq 0 (length jobs))).
Proof.
  intros El Eg. rewrite (main_eq cfg svc r w seen_jobs jobs El Eg). cbv zeta.
  rewrite events_triple, posted_app, upto_all, upto_posts.
  destruct (gather_jobs_quiet cfg svc r) as (jobs' & ge & Eg' & Pg & _).
  by rewrite Eg', events_triple, Pg.
Qed.

(** X13. The set a pass persists is exactly the set it loaded plus the
    urls of the listings it posted: a url is in it when it was loaded,
    or when a listing of the pass with that url, not loaded, scored at
    least 7. *)
Theorem persisted_exactly (r : remote) (w : World)
    (seen_jobs : gset string) (jobs : list Job) (u : string) :
  result (load_seen_jobs w) = Returns seen_jobs →
  result (gather_jobs cfg svc r w) = Returns jobs →
  ∃ seen', result (load_seen_jobs (world_after (main cfg svc r w))) = Returns seen' ∧
    (u ∈ seen' ↔
     u ∈ seen_jobs ∨
     ∃ i job, jobs !! i = Some job ∧ url job = u ∧ (u ∉ seen_jobs) ∧
              7 ≤ score_in_turn cfg svc seen_jobs jobs i w).
Proof.
  intros El Eg. eexists. split; [by apply persisted_after_main|].
  rewrite upto_elem. split.
  - intros [?|(i & job & _ & Hi & <- & ? & ?)]; [by left|right].
    by exists i, job.
  - intros [?|(i & job & Hi & <- & ? & ?)]; [by left|right].
    exists i, job. split_and!; try done. by apply lookup_lt_Some in Hi.
Qed.

(** X14. A pass that finds no cache file, or a cache file holding a JSON
    array of strings, runs to its end whatever the feeds and the
    services do, and leaves a cache file that holds a JSON array of
    strings. *)
Theorem main_completes (r : remote) (w : World) :
  cache_file w = Absent ∨ (∃ urls, cache_file w = JsonArray urls) →
  result (main cfg svc r w) = Returns tt ∧
  ∃ urls, cache_file (world_after (main cfg svc r w)) = JsonArray urls.
Proof.
  intros Hok.
  assert (∃ seen_jobs, result (load_seen_jobs w) = Returns seen_jobs) as [seen_jobs El].
  { destruct Hok as [E|[urls E]].
    - destruct (load_seen_jobs_cases w) as [H _]. rewrite (H E). by eexists.
    - rewrite (load_seen_jobs_array w urls E). by eexists. }
  destruct (gather_jobs_returns cfg svc r w) as [jobs Eg].
  rewrite (main_eq cfg svc r w seen_jobs jobs El Eg). cbv zeta.
  split; [done|]. unfold world_after at 1. simpl. by eexists.
Qed.

(** X15. A pass that finds a cache file [json.load] rejects stops at
    once with that exception: it fetches no feed, asks for no score,
    posts nothing and leaves the file as it is. *)
Theorem main_stops_on_undecodable (r : remote) (w : World) (err : exn) :
  cache_file w = Undecodable err →
  main cfg svc r w = (Raises err, w, []).
Proof.
  intros E. apply main_aborts.
  destruct (load_seen_jobs_cases w) as [_ H].
  by rewrite (H err E).
Qed.

(** X16. A cache file [json.load] rejects is never repaired: however
    many passes follow, each stops at once and the world stays as it
    was. *)
Theorem undecodable_forever (rs : list remote) (w : World) (err : exn) :
  cache_file w = Undecodable err →
  passes cfg svc rs w = w.
Proof.
  intros E. unfold passes. induction rs as [|r rs IH]; [done|].
  simpl. rewrite (main_aborts cfg svc r w err).
  - exact IH.
  - destruct (load_seen_jobs_cases w) as [_ H]. by rewrite (H err E).
Qed.

(** X17. Over any number of passes, whatever the feeds answer each time,
    the cache file stays loadable and the set it holds only grows. *)
Theorem passes_grow (rs : list remote) (w : World) (seen_jobs : gset string) :
  result (load_seen_jobs w) = Returns seen_jobs →
  ∃ seen', result (load_seen_jobs (passes cfg svc rs w)) = Returns seen' ∧
           seen_jobs ⊆ seen'.
Proof.
  revert w seen_jobs. unfold passes.
  induction rs as [|r rs IH]; intros w seen_jobs El; [by eauto|].
  simpl. destruct (gather_jobs_returns cfg svc r w) as [jobs Eg].
  pose proof (persisted_after_main cfg svc r w seen_jobs jobs El Eg) as E1.
  destruct (IH _ _ E1) as (seen' & E2 & Hsub).
  exists seen'. split; [done|].
  intros u Hu. apply Hsub, upto_elem. by left.
Qed.

(** X18. A post that fails is logged and not tried again: with the
    webhook down, a listing that qualifies still has its url persisted,
    so later passes skip it. *)
Theorem failed_post_still_seen (r : remote) (w : World)
    (seen_jobs : gset string) (jobs : list Job) (i : nat) (job : Job) (e : exn) :
  (∀ k text, webhook svc k text = Raises e) →
  result (load_seen_jobs w) = Returns seen_jobs →
  result (gather_jobs cfg svc r w) = Returns jobs →
  jobs !! i = Some job →
  url job ∉ seen_jobs →
  7 ≤ score_in_turn cfg svc seen_jobs jobs i w →
  Log ERROR ("Slack error: " +:+ exc_text e)
    ∈ events (turn cfg svc seen_jobs jobs i w) ∧
  ∃ seen', result (load_seen_jobs (world_after (main cfg svc r w))) = Returns seen' ∧
           url job ∈ seen'.
Proof.
  intros Hdown El Eg Ej Hnew Hs. split.
  - rewrite (turn_job cfg svc _ _ _ _ _ Ej), process_job_eq. cbv zeta.
    rewrite decide_False by done.
    rewrite <- (score_in_turn_job cfg svc _ _ _ _ _ Ej).
    rewrite decide_True by done.
    rewrite send_to_slack_eq, Hdown, !events_triple.
    apply elem_of_app. right. right. apply elem_of_app. left. right. left.
  - eexists. split; [by apply persisted_after_main|].
    apply upto_elem. right. exists i, job. split_and!; try done.
    by apply lookup_lt_Some in Ej.
Qed.

(** X19. A listing whose completion call fails is treated as scored 0:
    its turn logs the error, posts nothing and adds nothing to the set
    being built. *)
Theorem failed_scoring_skips (seen_jobs : gset string) (jobs : list Job)
    (i : nat) (job : Job) (w : World) (e : exn) :
  jobs !! i = Some job →
  url job ∉ seen_jobs →
  chat svc (completions (world_after (upto cfg svc seen_jobs jobs i w)))
    (prompt_of job) = Raises e →
  posted (events (turn cfg svc seen_jobs jobs i w)) = [] ∧
  result (turn cfg svc seen_jobs jobs i w)
  = Returns (returned ∅ (upto cfg svc seen_jobs jobs i w)) ∧
  Log ERROR ("OpenAI error: " +:+ exc_text e)
    ∈ events (turn cfg svc seen_jobs jobs i w).
Proof.
  intros Ej Hnew Hc.
  rewrite (turn_job cfg svc _ _ _ _ _ Ej), process_job_eq. cbv zeta.
  rewrite decide_False by done. rewrite score_job_eq, Hc.
  unfold returned, result, events. simpl.
  split_and!; [done..|]. right. left.
Qed.

(** X20. A pass whose feeds give no listing does nothing but ask the
    feeds, and writes the set it loaded back to the cache file (creating
    the file when there was none). *)
Theorem pass_without_listings (r : remote) (w : World) (seen_jobs : gset string) :
  result (load_seen_jobs w) = Returns seen_jobs →
  result (gather_jobs cfg svc r w) = Returns [] →
  events (main cfg svc r w) = events (gather_jobs cfg svc r w) ∧
  cache_file (world_after (main cfg svc r w)) = JsonArray (elements seen_jobs) ∧
  result (load_seen_jobs (world_after (main cfg svc r w))) = Returns seen_jobs.
Proof.
  intros El Eg. rewrite (main_eq cfg svc r w seen_jobs [] El Eg). cbv zeta.
  split_and!.
  - rewrite events_triple. simpl. by rewrite app_nil_r.
  - done.
  - erewrite load_seen_jobs_array by reflexivity.
    by rewrite list_to_set_elements_L.
Qed.

End More.

(** ** Instances of the further properties *)

Lemma extract_score_of_reply_witness :
  extract_score ("Score: " +:+ pretty 8 +:+ "/10" +:+ nl +:+ "Reason: remote")
  = Returns 8.
Proof.
  apply (extract_score_of_reply 8).
  - lia.
  - vm_compute. lia.
  - reflexivity.
Defined.

Lemma remoteok_listings_witness :
  ∃ entry, entry ∈ tail
      [ {| ro_position := None; ro_description := None; ro_url := None |};
        {| ro_position := Some "Senior Data Scientist";
           ro_description := Some "Build models.";
           ro_url := Some "/remote-jobs/1" |} ] ∧
    ro_position entry = Some (title Sample.scientist) ∧
    contains "data" (lower (title Sample.scientist)) = true ∧
    (char_length (description Sample.scientist) ≤ 1000)%nat ∧
    url Sample.scientist = "https://remoteok.com" +:+ format_value (ro_url entry).
Proof.
  apply (remoteok_listings Sample.svc Sample.feeds Sample.fresh _
           [Sample.scientist]).
  - reflexivity.
  - reflexivity.
  - left.
Defined.

Lemma remoteok_skips_first_witness : (length [Sample.scientist] ≤ 2 - 1)%nat.
Proof.
  apply (remoteok_skips_first Sample.svc Sample.feeds Sample.fresh
           [ {| ro_position := None; ro_description := None; ro_url := None |};
             {| ro_position := Some "Senior Data Scientist";
                ro_description := Some "Build models.";
                ro_url := Some "/remote-jobs/1" |} ]).
  - reflexivity.
  - reflexivity.
Defined.

Lemma ycombinator_listings_witness :
  ∃ jc t h, jc ∈ [ {| jp_h2 := Some "  Data Scientist "; jp_p := Some " Models ";
                     jp_href := Some "/companies/x/jobs/1" |};
                  {| jp_h2 := Some "Data Science Intern"; jp_p := None;
                     jp_href := None |} ] ∧
    jp_h2 jc = Some t ∧ jp_href jc = Some h ∧
    contains "data" (lower t) = true ∧
    contains "intern" (lower t) = false ∧
    "Data Scientist" = strip t ∧
    "Models" = match jp_p jc with Some p => strip p | None => "" end ∧
    "https://www.ycombinator.com/companies/x/jobs/1"
    = "https://www.ycombinator.com" +:+ h.
Proof.
  apply (ycombinator_listings Outage.feeds Sample.fresh _
           [ {| title := "Data Scientist"; description := "Models";
                url := "https://www.ycombinator.com/companies/x/jobs/1" |} ]
           {| title := "Data Scientist"; description := "Models";
              url := "https://www.ycombinator.com/companies/x/jobs/1" |}).
  - reflexivity.
  - reflexivity.
  - left.
Defined.

Lemma ycombinator_one_bad_card_witness :
  result (fetch_ycombinator_jobs Sample.broken_feeds Sample.fresh) = Returns [].
Proof.
  apply (ycombinator_one_bad_card Sample.broken_feeds Sample.fresh
           [ {| jp_h2 := None; jp_p := None; jp_href := Some "/jobs/1" |} ]
           {| jp_h2 := None; jp_p := None; jp_href := Some "/jobs/1" |}).
  - reflexivity.
  - left.
  - reflexivity.
Defined.

Lemma google_all_or_nothing_witness :
  [Sample.analyst; Sample.clerk; Sample.engineer] = [] ∨
  Forall2 (fun g job =>
             gj_title g = Some (title job) ∧
             gj_description g = Some (description job) ∧
             first_link g = Some (url job))
    [ {| gj_title := Some "Senior Data Analyst";
         gj_description := Some "Dashboards."; gj_related_links := None |};
      {| gj_title := Some "Data Entry Clerk";
         gj_description := Some "Typing."; gj_related_links := None |};
      {| gj_title := Some "Senior Data Engineer";
         gj_description := Some "Pipelines.";
         gj_related_links := Some [ {| rl_link := None |} ] |} ]
    [Sample.analyst; Sample.clerk; Sample.engineer].
Proof.
  apply (google_all_or_nothing Sample.cfg Sample.feeds Sample.fresh).
  - reflexivity.
  - reflexivity.
Defined.

Lemma google_one_bad_result_witness :
  result (fetch_google_jobs Sample.cfg Sample.broken_feeds Sample.fresh)
  = Returns [].
Proof.
  apply (google_one_bad_result Sample.cfg Sample.broken_feeds Sample.fresh
           [ {| gj_title := Some "Data Scientist";
                gj_description := Some "Models.";
                gj_related_links := Some [] |} ]
           {| gj_title := Some "Data Scientist";
              gj_description := Some "Models.";
              gj_related_links := Some [] |}).
  - reflexivity.
  - left.
  - right. right. reflexivity.
Defined.

Lemma score_job_nonzero_witness :
  chat Sample.svc (completions Sample.fresh) (prompt_of Sample.scientist)
  = Returns ("Score: 8/10" +:+ nl +:+ "Reason: senior and remote") ∧
  has_pattern ("Score: 8/10" +:+ nl +:+ "Reason: senior and remote") ∧ 0 < 8.
Proof.
  apply (score_job_nonzero Sample.svc Sample.scientist Sample.fresh).
  - reflexivity.
  - discriminate.
Defined.

Lemma one_request_per_unseen_witness :
  requested (events (main Sample.cfg Sample.svc Sample.feeds Sample.visited))
  = prompt_of <$> filter (fun job => url job ∉
                            (list_to_set ["https://remoteok.com/remote-jobs/1"]
                               : gset string))
                    Sample.listings ∧
  slept (events (main Sample.cfg Sample.svc Sample.feeds Sample.visited))
  = (2 * length (filter (fun job => url job ∉
                           (list_to_set ["https://remoteok.com/remote-jobs/1"]
                              : gset string))
                   Sample.listings))%nat.
Proof.
  apply (one_request_per_unseen Sample.cfg Sample.svc Sample.feeds Sample.visited).
  - reflexivity.
  - reflexivity.
Defined.

Lemma posts_of_pass_witness :
  posted (events (main Sample.cfg Sample.svc Sample.feeds Sample.fresh))
  = concat (map (fun i => notification Sample.cfg Sample.svc ∅ Sample.listings
                            i Sample.fresh)
                (seq 0 (length Sample.listings))).
Proof.
  apply (posts_of_pass Sample.cfg Sample.svc Sample.feeds Sample.fresh).
  - reflexivity.
  - reflexivity.
Defined.

Lemma persisted_exactly_witness :
  ∃ seen',
    result (load_seen_jobs
              (world_after (main Sample.cfg Sample.svc Sample.feeds Sample.fresh)))
    = Returns seen' ∧
    ("" ∈ seen' ↔
     "" ∈ (∅ : gset string) ∨
     ∃ i job, Sample.listings !! i = Some job ∧ url job = "" ∧
              ("" ∉ (∅ : gset string)) ∧
              7 ≤ score_in_turn Sample.cfg Sample.svc ∅ Sample.listings i
                    Sample.fresh).
Proof.
  apply (persisted_exactly Sample.cfg Sample.svc Sample.feeds Sample.fresh
           ∅ Sample.listings "").
  - reflexivity.
  - reflexivity.
Defined.

Lemma main_completes_witness :
  result (main Sample.cfg Sample.svc Sample.broken_feeds Sample.fresh)
  = Returns tt ∧
  ∃ urls,
    cache_file (world_after
                  (main Sample.cfg Sample.svc Sample.broken_feeds Sample.fresh))
    = JsonArray urls.
Proof.
  apply (main_completes Sample.cfg Sample.svc Sample.broken_feeds Sample.fresh).
  by left.
Defined.

Lemma main_stops_on_undecodable_witness :
  main Sample.cfg Sample.svc Sample.feeds Sample.corrupt
  = (Raises Sample.decode_error, Sample.corrupt, []).
Proof.
  apply (main_stops_on_undecodable Sample.cfg Sample.svc Sample.feeds
           Sample.corrupt Sample.decode_error).
  reflexivity.
Defined.

Lemma undecodable_forever_witness :
  passes Sample.cfg Sample.svc [Sample.feeds; Sample.broken_feeds] Sample.corrupt
  = Sample.corrupt.
Proof.
  apply (undecodable_forever Sample.cfg Sample.svc _ Sample.corrupt
           Sample.decode_error).
  reflexivity.
Defined.

Lemma passes_grow_witness :
  ∃ seen',
    result (load_seen_jobs
              (passes Sample.cfg Sample.svc [Sample.feeds; Sample.broken_feeds]
                 Sample.visited))
    = Returns seen' ∧
    list_to_set ["https://remoteok.com/remote-jobs/1"] ⊆ seen'.
Proof.
  apply (passes_grow Sample.cfg Sample.svc _ Sample.visited).
  reflexivity.
Defined.

Lemma failed_post_still_seen_witness :
  Log ERROR "Slack error: 503 Server Error"
    ∈ events (turn Sample.cfg Outage.svc ∅ Sample.listings 0 Sample.fresh) ∧
  ∃ seen',
    result (load_seen_jobs
              (world_after (main Sample.cfg Outage.svc Sample.feeds Sample.fresh)))
    = Returns seen' ∧
    url Sample.scientist ∈ seen'.
Proof.
  apply (failed_post_still_seen Sample.cfg Outage.svc Sample.feeds Sample.fresh
           ∅ Sample.listings 0 Sample.scientist
           (Exc "HTTPError" "503 Server Error")).
  - reflexivity.
  - reflexivity.
  - reflexivity.
  - reflexivity.
  - apply not_elem_of_empty.
  - vm_compute. discriminate.
Defined.

Lemma failed_scoring_skips_witness :
  posted (events (turn Sample.cfg Sample.svc ∅ [Sample.intern] 0 Sample.fresh))
  = [] ∧
  result (turn Sample.cfg Sample.svc ∅ [Sample.intern] 0 Sample.fresh)
  = Returns (returned ∅ (upto Sample.cfg Sample.svc ∅ [Sample.intern] 0 Sample.fresh)) ∧
  Log ERROR "OpenAI error: Request timed out"
    ∈ events (turn Sample.cfg Sample.svc ∅ [Sample.intern] 0 Sample.fresh).
Proof.
  apply (failed_scoring_skips Sample.cfg Sample.svc ∅ [Sample.intern] 0
           Sample.intern Sample.fresh Sample.timeout).
  - reflexivity.
  - apply not_elem_of_empty.
  - reflexivity.
Defined.

Lemma pass_without_listings_witness :
  events (main Sample.cfg Sample.svc Sample.broken_feeds Sample.visited)
  = events (gather_jobs Sample.cfg Sample.svc Sample.broken_feeds Sample.visited) ∧
  cache_file (world_after
                (main Sample.cfg Sample.svc Sample.broken_feeds Sample.visited))
  = JsonArray (elements (list_to_set ["https://remoteok.com/remote-jobs/1"]
                           : gset string)) ∧
  result (load_seen_jobs
            (world_after
               (main Sample.cfg Sample.svc Sample.broken_feeds Sample.visited)))
  = Returns (list_to_set ["https://remoteok.com/remote-jobs/1"]).
Proof.
  apply (pass_without_listings Sample.cfg Sample.svc Sample.broken_feeds
           Sample.visited).
  - reflexivity.
  - reflexivity.
Defined.
